(** * test-go: the user registry and the greeting handlers

    A shallow embedding of

    - [internal/users/users.go] (package [users]): [User], [Manager],
      [NewManager], [Manager.AddUser], [Manager.GetUserByName], in module
      [users]; the earlier revision of the file, whose [AddUser] makes no
      lookup, in module [users_initial];
    - [cmd/server/main.go] (package [main]): [handleHelloParameterized],
      [handleJSON], [handleHello] and the response writer they write to, in
      module [server].

    Go strings are byte strings ([string]); a slice is a [list] read with
    stdpp's lookup [!!]; [url.Values] is a [gmap string (list string)];
    methods on [*Manager] are computations in a state monad over [Manager];
    a Go [error] result is an [option error] ([None] is [nil]).  The
    library functions [mail.ParseAddress] and [json.Unmarshal] are
    parameters of the functions that call them. *)

From Stdlib Require Import String Ascii List Bool Lia.
From stdpp Require Import base option list strings gmap.
Import ListNotations.

Local Open Scope string_scope.

(** ** The Go runtime pieces the packages use *)

Module Go.

(** The characters that cannot be written inside a string literal here. *)
Definition LF : string := String (ascii_of_nat 10) EmptyString.
Definition DQ : string := String (ascii_of_nat 34) EmptyString.

(** An [error] value.  [ErrNoResultFound] is the package-level sentinel
    [var ErrNoResultFound = errors.New("no result found")]; every other
    error of the program is created at the statement that returns it, by
    [errors.New] or by [fmt.Errorf] without [%w], and so wraps nothing. *)
Inductive error : Type :=
| ErrNoResultFound
| errorString (s : string).

(** [err.Error()] *)
Definition Error (e : error) : string :=
  match e with
  | ErrNoResultFound => "no result found"
  | errorString s => s
  end.

(** [errors.New(text)] at a return statement. *)
Definition errors_New (text : string) : error := errorString text.

(** [errors.Is(err, target)]: identity with [target] along the unwrap
    chain.  No error of this program wraps another, and the only target
    the program passes is the sentinel, which is identical to itself and
    to no value made by [errors.New] or [fmt.Errorf]. *)
Definition errors_Is (err target : error) : bool :=
  match err, target with
  | ErrNoResultFound, ErrNoResultFound => true
  | _, _ => false
  end.

(** The verb [%q] on a string: the string in double quotes.  (Go also
    escapes quotes, backslashes and non-printable bytes; both uses in
    [AddUser] format the empty string.) *)
Definition fmt_q (s : string) : string := DQ +:+ s +:+ DQ.

(** [s == t] on strings. *)
Definition eqs (s t : string) : bool := String.eqb s t.

End Go.

(** ** A state monad over the receiver of a method *)

Module St.

Definition M (S A : Type) : Type := S -> A * S.

#[global] Instance M_ret {S} : MRet (M S) := fun A a s => (a, s).
#[global] Instance M_bind {S} : MBind (M S) :=
  fun A B k c s => let (a, s') := c s in k a s'.

Definition get {S} : M S S := fun s => (s, s).
Definition put {S} (s : S) : M S unit := fun _ => (tt, s).

(** What a computation returns from a state, and the state it leaves. *)
Definition result {S A} (c : M S A) (s : S) : A := fst (c s).
Definition after {S A} (c : M S A) (s : S) : S := snd (c s).

End St.

(** ** [net/mail] *)

Module mail.

(** [mail.Address] *)
Record Address : Type := mkAddress { Name : string; Address_ : string }.

(** A stand-in for [mail.ParseAddress], used where a theorem is run on a
    concrete call.  It reads a bare [local@domain] or the same between
    angle brackets, with non-empty sides made of bytes other than space,
    [@], [<] and [>], and fails on everything else; on the addresses the
    package's tests use it returns what [net/mail] returns. *)
Definition plain (c : ascii) : bool :=
  negb (Ascii.eqb c " " || Ascii.eqb c "@" || Ascii.eqb c "<" || Ascii.eqb c ">").

Fixpoint atom (s : string) : bool :=
  match s with
  | EmptyString => true
  | String c rest => plain c && atom rest
  end.

Fixpoint cut_at (s : string) : option (string * string) :=
  match s with
  | EmptyString => None
  | String c rest =>
      if Ascii.eqb c "@" then Some (EmptyString, rest)
      else match cut_at rest with
           | Some (l, d) => Some (String c l, d)
           | None => None
           end
  end.

Definition addr_spec (s : string) : option Address :=
  match cut_at s with
  | Some (l, d) =>
      if negb (Go.eqs l EmptyString) && negb (Go.eqs d EmptyString) && atom l && atom d
      then Some (mkAddress EmptyString s) else None
  | None => None
  end.

Fixpoint drop_last (s : string) : option (string * ascii) :=
  match s with
  | EmptyString => None
  | String c EmptyString => Some (EmptyString, c)
  | String c rest =>
      match drop_last rest with
      | Some (r, z) => Some (String c r, z)
      | None => None
      end
  end.

Definition sample_ParseAddress (s : string) : option Address :=
  match s with
  | String "<" rest =>
      match drop_last rest with
      | Some (inner, ">"%char) => addr_spec inner
      | _ => None
      end
  | _ => addr_spec s
  end.

End mail.

(** ** Package [users] *)

Module users.
Import Go.

(** [type User struct { FirstName, LastName string; Email mail.Address }] *)
Record User : Type := mkUser {
  FirstName : string;
  LastName : string;
  Email : mail.Address
}.

(** [type Manager struct { users []User }] *)
Record Manager : Type := mkManager { users_ : list User }.

(** A [*User] that points into [m.users]: the index of the element. *)
Definition UserPtr : Type := nat.

Definition deref (m : Manager) (p : UserPtr) : option User := users_ m !! p.

(** [NewManager]: [&Manager{}], the slice is [nil]. *)
Definition NewManager : Manager := mkManager [].

(** The condition of the [if] in the loop of [GetUserByName]. *)
Definition matches (first last : string) (user : User) : bool :=
  eqs (FirstName user) first && eqs (LastName user) last.

(** [for i, user := range m.users { if ... { return &m.users[i], nil } }]
    run on the elements from index [i] on: the index returned, if any. *)
Fixpoint range_users (first last : string) (i : nat) (us : list User) : option UserPtr :=
  match us with
  | [] => None
  | user :: rest =>
      if matches first last user then Some i
      else range_users first last (S i) rest
  end.

(** [Manager.GetUserByName]: the pointer and the error it returns. *)
Definition GetUserByName (first last : string)
  : St.M Manager (option UserPtr * option error) :=
  m ← St.get;
  match range_users first last 0 (users_ m) with
  | Some result => mret (Some result, None)
  | None => mret (None, Some ErrNoResultFound)
  end.

(** [err != nil && !errors.Is(err, ErrNoResultFound)], the first test
    [AddUser] makes on what the lookup returned. *)
Definition lookup_failed (err : option error) : bool :=
  match err with
  | Some e => negb (errors_Is e ErrNoResultFound)
  | None => false
  end.

(** [m.users = append(m.users, newUser)] *)
Definition append_user (newUser : User) : St.M Manager unit :=
  m ← St.get;
  St.put (mkManager (users_ m ++ [newUser])).

Section AddUser.

(** [mail.ParseAddress], of the Go library: the address, or [None] for
    an error. *)
Variable ParseAddress : string -> option mail.Address.

(** [Manager.AddUser]: the error it returns. *)
Definition AddUser (firstName lastName email : string)
  : St.M Manager (option error) :=
  if eqs firstName "" then
    mret (Some (errorString ("invalid first name: " +:+ fmt_q firstName)))
  else if eqs lastName "" then
    mret (Some (errorString ("invalid last name: " +:+ fmt_q lastName)))
  else
    '(existinguser, err) ← GetUserByName firstName lastName;
    if lookup_failed err then
      mret (Some (errorString
              ("error getting user by name: " +:+ from_option Error "<nil>" err)))
    else if bool_decide (existinguser ≠ None) then
      mret (Some (errors_New "user already exists"))
    else
      match ParseAddress email with
      | None => mret (Some (errorString ("invalid email: " +:+ email)))
      | Some parsedAddress =>
          let newUser := mkUser firstName lastName parsedAddress in
          _ ← append_user newUser;
          mret None
      end.

End AddUser.

(** The messages of the four ways [AddUser] fails. *)
Definition InvalidFirstName : error := errorString ("invalid first name: " +:+ DQ +:+ DQ).
Definition InvalidLastName : error := errorString ("invalid last name: " +:+ DQ +:+ DQ).
Definition DuplicateUser : error := errorString "user already exists".
Definition InvalidEmail (email : string) : error := errorString ("invalid email: " +:+ email).

End users.

(** ** Package [users], the earlier revision of [internal/users/users.go]

    The revision before [GetUserByName] was added: [AddUser] validates the
    two names and the address and appends, with no lookup. *)

Module users_initial.
Import Go.
Import users.

Section AddUser.

Variable ParseAddress : string -> option mail.Address.

(** [Manager.AddUser] of that revision.  (Its last-name message has no
    space after the colon.) *)
Definition AddUser (firstName lastName email : string)
  : St.M Manager (option error) :=
  if eqs firstName "" then
    mret (Some (errorString ("invalid first name: " +:+ fmt_q firstName)))
  else if eqs lastName "" then
    mret (Some (errorString ("invalid last name:" +:+ fmt_q lastName)))
  else
    match ParseAddress email with
    | None => mret (Some (errorString ("invalid email: " +:+ email)))
    | Some parsedAddress =>
        let newUser := mkUser firstName lastName parsedAddress in
        _ ← append_user newUser;
        mret None
    end.

End AddUser.

End users_initial.

(** ** Package [main]: the handlers *)

Module server.
Import Go.

(** [type UserData struct { Name string }] *)
Record UserData : Type := mkUserData { Name : string }.

(** [http.StatusOK], [http.StatusBadRequest] *)
Definition StatusOK : nat := 200.
Definition StatusBadRequest : nat := 400.

(** The [http.ResponseWriter] the handlers write to, as
    [httptest.ResponseRecorder] keeps it: whether the header was written,
    the status code and the body so far.  Writes to it do not fail, so the
    [slog.Error] branches after [w.Write] are not taken; response headers
    and the lines the handlers print to standard output are left out. *)
Record ResponseWriter : Type := mkResponseWriter {
  wroteHeader : bool;
  Code : nat;
  Body : string
}.

(** [httptest.NewRecorder()] *)
Definition NewRecorder : ResponseWriter := mkResponseWriter false StatusOK "".

(** [w.WriteHeader(code)]: only the first call sets the code. *)
Definition WriteHeader (code : nat) (w : ResponseWriter) : ResponseWriter :=
  if wroteHeader w then w else mkResponseWriter true code (Body w).

(** [w.Write(data)]: writes the header with [StatusOK] if none was written
    yet, then appends to the body. *)
Definition Write (data : string) (w : ResponseWriter) : ResponseWriter :=
  let w := WriteHeader StatusOK w in
  mkResponseWriter true (Code w) (Body w +:+ data).

(** [http.Error(w, error, code)]: the code, then the message and a newline. *)
Definition http_Error (w : ResponseWriter) (error : string) (code : nat) : ResponseWriter :=
  Write (error +:+ LF) (WriteHeader code w).

(** [url.Values], a map from a key to its values. *)
Abbreviation Values := (gmap string (list string)).

(** [v[key]] on a Go map: the [nil] slice when the key is absent. *)
Definition index (v : Values) (key : string) : list string := default [] (v !! key).

(** [v[key] = append(v[key], value)], what [url.ParseQuery] does with each
    [key=value] piece of the query string, from left to right. *)
Definition Values_append (v : Values) (kv : string * string) : Values :=
  <[kv.1 := (index v kv.1 ++ [kv.2])%list]> v.

(** What a handler reads of [*http.Request]: the path, the [key=value]
    pieces of the query string (decoded, in the order they are written),
    and what [io.ReadAll(r.Body)] returns. *)
Record Request : Type := mkRequest {
  URL_Path : string;
  URL_RawQuery : list (string * string);
  Body_ReadAll : string * option error
}.

(** [r.URL.Query()] *)
Definition URL_Query (r : Request) : Values :=
  foldl Values_append ∅ (URL_RawQuery r).

(** [handleHello]: the three [output.WriteString] calls on an empty
    [bytes.Buffer], then [w.Write(output.Bytes())]. *)
Definition handleHello (w : ResponseWriter) (username : string) : ResponseWriter :=
  let output := "" in
  let output := output +:+ "Hello " in
  let output := output +:+ username in
  let output := output +:+ "!" +:+ LF in
  Write output w.

(** [handleHelloParameterized]; [userlist[0]] is read only under the
    guard [len(userlist) > 0]. *)
Definition handleHelloParameterized (w : ResponseWriter) (r : Request) : ResponseWriter :=
  let params := URL_Query r in
  let userlist := index params "user" in
  let username := "User" in
  let username :=
    if (0 <? List.length userlist)%nat then default username (userlist !! 0)
    else username in
  handleHello w username.

Section handleJSON.

(** [json.Unmarshal(data, &v)], of the Go library: the error it returns and
    the value it leaves in [v]. *)
Variable json_Unmarshal : string -> UserData -> option error * UserData.

(** [handleJSON] *)
Definition handleJSON (w : ResponseWriter) (r : Request) : ResponseWriter :=
  let '(byteData, err) := Body_ReadAll r in
  if bool_decide (err ≠ None) then
    http_Error w "bad request body" StatusBadRequest
  else if bool_decide (String.length byteData = 0) then
    http_Error w "empty request body" StatusBadRequest
  else
    let reqData := mkUserData "" in
    let '(err, reqData) := json_Unmarshal byteData reqData in
    if bool_decide (err ≠ None) then
      http_Error w "error parsing request body" StatusBadRequest
    else if eqs (Name reqData) "" then
      http_Error w "invalid request body!" StatusBadRequest
    else
      handleHello w (Name reqData).

End handleJSON.

(** A stand-in for [json.Unmarshal] into a [UserData], used where a theorem
    is run on a concrete body.  It decodes the one-member object that
    [json.Marshal] writes for a [UserData] whose name needs no escape, and
    reports an error on every other input. *)
Definition needs_no_escape (c : ascii) : bool :=
  negb (Ascii.eqb c (ascii_of_nat 34) || Ascii.eqb c (ascii_of_nat 92))
  && (32 <=? nat_of_ascii c)%nat && (nat_of_ascii c <? 127)%nat.

Fixpoint all_chars (p : ascii -> bool) (s : string) : bool :=
  match s with
  | EmptyString => true
  | String c rest => p c && all_chars p rest
  end.

Definition sample_Unmarshal (data : string) (v : UserData) : option error * UserData :=
  let pre := "{" +:+ DQ +:+ "Name" +:+ DQ +:+ ":" +:+ DQ in
  let post := DQ +:+ "}" in
  let n := String.length data in
  let k := String.length pre in
  let name := substring k (n - k - 2) data in
  if String.prefix pre data && (k + 2 <=? n)%nat && eqs (substring (n - 2) 2 data) post
     && all_chars needs_no_escape name
  then (None, mkUserData name)
  else (Some (errorString "json: cannot decode the input"), v).

End server.

(** ** What the properties are stated with *)

Module registry.
Import Go users.

(** The pair of names a record is found by. *)
Definition same_names (first last : string) (u : User) : Prop :=
  FirstName u = first /\ LastName u = last.

(** No two records of the registry carry the same pair of names. *)
Definition unique_names (m : Manager) : Prop :=
  forall i j u v,
    users_ m !! i = Some u -> users_ m !! j = Some v ->
    FirstName u = FirstName v -> LastName u = LastName v -> i = j.

(** Every record has a first name and a last name. *)
Definition names_nonempty (m : Manager) : Prop :=
  forall u, u ∈ users_ m -> FirstName u <> "" /\ LastName u <> "".

Definition invariant (m : Manager) : Prop :=
  unique_names m /\ names_nonempty m.

(** The registries a program can build: a new one, and what a call of
    either method leaves. *)
Inductive reachable (ParseAddress : string -> option mail.Address) : Manager -> Prop :=
| reach_NewManager : reachable ParseAddress NewManager
| reach_AddUser m firstName lastName email :
    reachable ParseAddress m ->
    reachable ParseAddress (St.after (AddUser ParseAddress firstName lastName email) m)
| reach_GetUserByName m first last :
    reachable ParseAddress m ->
    reachable ParseAddress (St.after (GetUserByName first last) m).

(** [s] starts with [p]. *)
Definition has_prefix (p s : string) : Prop := String.prefix p s = true.

(** Splits the four parts of "found at this position". *)
Ltac found_at := refine (conj _ (conj _ (conj _ _))).

End registry.

(** ** What the handler properties are stated with *)

Module http.
Import Go server.

(** The values the query string gives to [key], in the order they are
    written. *)
Fixpoint values_of (key : string) (pairs : list (string * string)) : list string :=
  match pairs with
  | [] => []
  | (k, x) :: rest =>
      if eqs k key then x :: values_of key rest else values_of key rest
  end.

(** The pieces [url.ParseQuery] reads off a query string that has no
    escape ([%], [+]) and no semicolon: the string is cut at each [&],
    empty pieces are skipped, and each piece is cut at its first [=] (a
    piece without [=] is a key with the empty value). *)
Fixpoint cut (sep : ascii) (s : string) : string * string :=
  match s with
  | EmptyString => (EmptyString, EmptyString)
  | String c rest =>
      if Ascii.eqb c sep then (EmptyString, rest)
      else let (before, after) := cut sep rest in (String c before, after)
  end.

Fixpoint split (sep : ascii) (s : string) : list string :=
  match s with
  | EmptyString => [EmptyString]
  | String c rest =>
      if Ascii.eqb c sep then EmptyString :: split sep rest
      else match split sep rest with
           | piece :: more => String c piece :: more
           | [] => [String c EmptyString]
           end
  end.

Definition pieces (rawQuery : string) : list (string * string) :=
  cut "=" <$> filter (fun piece => piece <> EmptyString) (split "&" rawQuery).

(** A finished response with this status code and this body. *)
Definition response (code : nat) (body : string) : ResponseWriter :=
  mkResponseWriter true code body.

(** A request to [path] with this query string and this body, read without
    error. *)
Definition request (path : string) (query : list (string * string)) (body : string) : Request :=
  mkRequest path query (body, None).

(** The decoder reports an error on [data]. *)
Definition rejects (json_Unmarshal : string -> UserData -> option error * UserData)
    (data : string) : Prop :=
  (json_Unmarshal data (mkUserData "")).1 <> None.

(** The decoder reads [data] as [d]. *)
Definition decodes (json_Unmarshal : string -> UserData -> option error * UserData)
    (data : string) (d : UserData) : Prop :=
  json_Unmarshal data (mkUserData "") = (None, d).

(** The body [json.Marshal] writes for a [UserData] whose name needs no
    escape. *)
Definition marshalled (name : string) : string :=
  "{" +:+ DQ +:+ "Name" +:+ DQ +:+ ":" +:+ DQ +:+ name +:+ DQ +:+ "}".

End http.

(** ** The calls of the packages' tests *)

Module scenarios.
Import Go users server http.

Definition parse : string -> option mail.Address := mail.sample_ParseAddress.

Definition addr (a : string) : mail.Address := mail.mkAddress "" a.

(** The registry of [TestAddUser] after its call. *)
Definition one_user : Manager :=
  mkManager [mkUser "jhon" "smith" (addr "foo@bar.com")].

(** The registry of [TestGetUserByName] after its four calls. *)
Definition four_users : Manager :=
  mkManager [mkUser "foo" "bar" (addr "f.foo@bar.com");
             mkUser "bari" "foo" (addr "bar@bar.com");
             mkUser "barz" "foo" (addr "barz@bar.com");
             mkUser "fozz" "foo" (addr "fooz@bar.com")].

(** A body that is not JSON: an object that is never closed. *)
Definition open_brace : string := "{".

End scenarios.

(** ** Package [main]: the other handlers *)

Module handlers.
Import Go server.

(** The two more parts of [*http.Request] that the header and the path
    handlers read: [r.Header], keyed by canonical header names, and the
    values [r.SetPathValue] or the router stored for the wildcards of the
    pattern. *)
Record Routed : Type := mkRouted {
  Header : Values;
  pathValues : gmap string string
}.

(** [r.PathValue(name)]: the empty string when the wildcard has no value. *)
Definition PathValue (r : Routed) (name : string) : string :=
  default "" (pathValues r !! name).

Section Header.

(** [textproto.CanonicalMIMEHeaderKey], of the Go library. *)
Variable CanonicalMIMEHeaderKey : string -> string.

(** [h.Get(key)]: the first value of the canonical key, or the empty
    string. *)
Definition Header_Get (h : Values) (key : string) : string :=
  let v := index h (CanonicalMIMEHeaderKey key) in
  if (List.length v =? 0)%nat then "" else default "" (v !! 0).

(** [handleHelloHeader] *)
Definition handleHelloHeader (w : ResponseWriter) (r : Routed) : ResponseWriter :=
  let username := Header_Get (Header r) "user" in
  if eqs username "" then
    http_Error w "invalid username provided" StatusBadRequest
  else
    handleHello w username.

(** [handleHelloNoHeader] *)
Definition handleHelloNoHeader (w : ResponseWriter) (r : Routed) : ResponseWriter :=
  let username := Header_Get (Header r) "user" in
  if eqs username "" then
    http_Error w "invalid username provided" StatusBadRequest
  else
    handleHello w username.

End Header.

(** [handleRoot] *)
Definition handleRoot (w : ResponseWriter) (r : Request) : ResponseWriter :=
  Write ("Welcome to our HomePage!" +:+ LF) w.

(** [handleGoodbye] *)
Definition handleGoodbye (w : ResponseWriter) (r : Request) : ResponseWriter :=
  Write ("Goodbye world is served at goodbye" +:+ LF) w.

(** [handleUserResponsesHello] *)
Definition handleUserResponsesHello (w : ResponseWriter) (r : Routed) : ResponseWriter :=
  let username := PathValue r "user" in
  handleHello w username.

(** A stand-in for [textproto.CanonicalMIMEHeaderKey] on names made of
    letters, digits and hyphens: the first letter and every letter after a
    hyphen in upper case, the others in lower case. *)
Definition upper (c : ascii) : ascii :=
  let n := nat_of_ascii c in
  if (97 <=? n)%nat && (n <=? 122)%nat then ascii_of_nat (n - 32) else c.

Definition lower (c : ascii) : ascii :=
  let n := nat_of_ascii c in
  if (65 <=? n)%nat && (n <=? 90)%nat then ascii_of_nat (n + 32) else c.

Fixpoint canonical_from (up : bool) (s : string) : string :=
  match s with
  | EmptyString => EmptyString
  | String c rest =>
      String (if up then upper c else lower c) (canonical_from (Ascii.eqb c "-") rest)
  end.

Definition sample_Canonical (s : string) : string := canonical_from true s.

(** [r.Header.Set(key, value)] on a request, as the tests call it. *)
Definition Header_Set (h : Values) (key value : string) : Values :=
  <[sample_Canonical key := [value]]> h.

End handlers.

(** ** Package [main], earlier revisions of [cmd/server/main.go] *)

Module server_initial.
Import Go server.

(** [handleHelloParameterized] before [handleHello] was split off: the
    buffer is filled and written in the handler itself. *)
Definition handleHelloParameterized (w : ResponseWriter) (r : Request) : ResponseWriter :=
  let params := URL_Query r in
  let userlist := index params "user" in
  let username := "User" in
  let username :=
    if (0 <? List.length userlist)%nat then default username (userlist !! 0)
    else username in
  let output := "" in
  let output := output +:+ "Hello " in
  let output := output +:+ username in
  let output := output +:+ "!" +:+ LF in
  Write output w.

(** [handleHealth], of the first revision. *)
Definition handleHealth (w : ResponseWriter) (r : Request) : ResponseWriter :=
  Write ("Hello world is served at health" +:+ LF) w.

End server_initial.

(** ** Sequences of calls *)

Module calls.
Import Go users registry.

(** The arguments of one call of [AddUser]. *)
Record call : Type := mkCall { firstName : string; lastName : string; email : string }.

Section AddUser.

Variable ParseAddress : string -> option mail.Address.

(** The calls of a list, one after the other, on the same [Manager]: the
    errors they return. *)
Fixpoint AddUsers (cs : list call) : St.M Manager (list (option error)) :=
  match cs with
  | [] => mret []
  | c :: rest =>
      err ← AddUser ParseAddress (firstName c) (lastName c) (email c);
      errs ← AddUsers rest;
      mret (err :: errs)
  end.

(** A call that names this pair and passes the checks that do not depend
    on the registry. *)
Definition adds (first last : string) (c : call) : Prop :=
  firstName c = first /\ lastName c = last /\
  first <> "" /\ last <> "" /\ is_Some (ParseAddress (email c)).

End AddUser.

(** The registry holds a record with this pair of names. *)
Definition present (first last : string) (m : Manager) : Prop :=
  exists u, u ∈ users_ m /\ same_names first last u.

(** The number of calls that returned no error. *)
Definition successes (errs : list (option error)) : nat :=
  length (filter (fun e => e = None) errs).

End calls.

(** ** What the handlers' answers have in common *)

Module responses.
Import Go server.

(** A response that was written, with status 200 or 400 and a body that
    ends with a newline. *)
Definition answered (w : ResponseWriter) : Prop :=
  wroteHeader w = true /\
  (Code w = StatusOK \/ Code w = StatusBadRequest) /\
  exists line, Body w = line +:+ LF.

(** The body with which a name is greeted. *)
Definition greeting (username : string) : string :=
  "Hello " +:+ username +:+ "!" +:+ LF.

End responses.

(** ** More calls of the tests *)

Module more_scenarios.
Import Go users server http handlers calls scenarios.

(** The request of [TestHandleUserResponsesHello], after
    [r.SetPathValue("user", "TestMan")]. *)
Definition with_path_value : Routed := mkRouted ∅ {["user" := "TestMan"]}.

(** The request of [TestHandleHelloHeader], after
    [r.Header.Set("user", "TestMan")]. *)
Definition with_header : Routed := mkRouted (Header_Set ∅ "user" "TestMan") ∅.

(** The request of [TestHandleHelloNoHeader]. *)
Definition without_header : Routed := mkRouted ∅ ∅.

(** A request with an empty [user] header. *)
Definition with_empty_header : Routed := mkRouted (Header_Set ∅ "user" "") ∅.

(** Three calls: one without a first name, one that adds a pair, one that
    names the same pair with another address. *)
Definition nameless : call := mkCall "" "smith" "foo@bar.com".
Definition jhon : call := mkCall "jhon" "smith" "foo@bar.com".
Definition jhon_again : call := mkCall "jhon" "smith" "other@bar.com".

End more_scenarios.

(** * Properties *)

(** ** String comparison *)

Module Go_facts.
Import Go.

Lemma eqs_true (s t : string) : eqs s t = true <-> s = t.
Proof. apply String.eqb_eq. Qed.

Lemma eqs_false (s t : string) : eqs s t = false <-> s <> t.
Proof. apply String.eqb_neq. Qed.

Lemma eqs_refl (s : string) : eqs s s = true.
Proof. apply String.eqb_refl. Qed.

Lemma fmt_q_empty : fmt_q "" = DQ +:+ DQ.
Proof. reflexivity. Qed.

End Go_facts.

(** ** The lookup loop *)

Module lookup_facts.
Import Go Go_facts users registry.

Lemma matches_true first last u :
  matches first last u = true <-> same_names first last u.
Proof.
  unfold matches, same_names.
  rewrite andb_true_iff, !eqs_true. reflexivity.
Qed.

Lemma matches_false first last u :
  matches first last u = false <-> ~ same_names first last u.
Proof.
  rewrite <- matches_true. destruct (matches first last u); split; congruence.
Qed.

(** The loop returns [i + j] exactly when [j] is the first position of the
    remaining elements that holds a record with these names. *)
Lemma range_users_Some first last us : forall i p,
  range_users first last i us = Some p <->
  exists j u, p = i + j /\ us !! j = Some u /\ same_names first last u /\
    forall k v, k < j -> us !! k = Some v -> ~ same_names first last v.
Proof.
  induction us as [|user rest IH]; intros i p; simpl.
  - split; [discriminate | intros (j & u & _ & Hj & _); discriminate].
  - destruct (matches first last user) eqn:Hm.
    + split.
      * intros [= <-]. exists 0, user. rewrite Nat.add_0_r.
        found_at; [done | done | by apply matches_true | intros k v Hk; lia].
      * intros (j & u & -> & Hj & Hu & Hmin).
        destruct j as [|j]; [by rewrite Nat.add_0_r |].
        exfalso. apply (Hmin 0 user); [lia | done | by apply matches_true].
    + rewrite IH. split.
      * intros (j & u & -> & Hj & Hu & Hmin). exists (S j), u.
        found_at; [lia | done | done |].
        intros [|k] v Hk Hv; simpl in Hv.
        -- injection Hv as <-. by apply matches_false.
        -- apply (Hmin k v); [lia | done].
      * intros (j & u & -> & Hj & Hu & Hmin).
        destruct j as [|j]; simpl in Hj.
        -- injection Hj as <-. apply matches_false in Hm. contradiction.
        -- exists j, u. found_at; [lia | done | done |].
           intros k v Hk Hv. apply (Hmin (S k) v); [lia | done].
Qed.

Lemma range_users_None first last us : forall i,
  range_users first last i us = None <->
  forall u, u ∈ us -> ~ same_names first last u.
Proof.
  induction us as [|user rest IH]; intros i; simpl.
  - split; [intros _ u Hu; inversion Hu | done].
  - destruct (matches first last user) eqn:Hm.
    + split; [discriminate |]. intros H. exfalso.
      apply (H user); [left | by apply matches_true].
    + rewrite IH. split.
      * intros H u Hu. apply elem_of_cons in Hu as [-> | Hu];
          [by apply matches_false | by apply H].
      * intros H u Hu. apply H. by right.
Qed.

Lemma range_users_app_fresh first last us u : forall i,
  (forall v, v ∈ us -> ~ same_names first last v) ->
  same_names first last u ->
  range_users first last i (us ++ [u]) = Some (i + length us).
Proof.
  induction us as [|user rest IH]; intros i Hfresh Hu; simpl.
  - apply matches_true in Hu. rewrite Hu. f_equal. lia.
  - assert (matches first last user = false) as ->.
    { apply matches_false, Hfresh. left. }
    rewrite IH; [f_equal; lia | | done].
    intros v Hv. apply Hfresh. by right.
Qed.

End lookup_facts.

(** ** The two methods of [Manager] *)

Module users_facts.
Import Go Go_facts users registry lookup_facts.

Lemma GetUserByName_run first last m :
  GetUserByName first last m =
  (match range_users first last 0 (users_ m) with
   | Some p => (Some p, None)
   | None => (None, Some ErrNoResultFound)
   end, m).
Proof.
  unfold GetUserByName, mbind, St.M_bind, St.get, mret, St.M_ret.
  by destruct (range_users first last 0 (users_ m)).
Qed.

(** The lookup returns a pointer and no error, or no pointer and the
    sentinel: nothing else. *)
Lemma GetUserByName_shape first last m :
  (exists p, St.result (GetUserByName first last) m = (Some p, None)) \/
  St.result (GetUserByName first last) m = (None, Some ErrNoResultFound).
Proof.
  unfold St.result. rewrite GetUserByName_run. simpl.
  destruct (range_users first last 0 (users_ m)) as [p|]; [left; by exists p | by right].
Qed.

Section AddUser.

Variable ParseAddress : string -> option mail.Address.

Local Abbreviation AddUser := (users.AddUser ParseAddress).

Lemma AddUser_no_first lastName email m :
  AddUser "" lastName email m = (Some InvalidFirstName, m).
Proof. reflexivity. Qed.

Lemma AddUser_no_last firstName email m :
  firstName <> "" ->
  AddUser firstName "" email m = (Some InvalidLastName, m).
Proof.
  intros Hf. apply eqs_false in Hf. unfold users.AddUser. by rewrite Hf.
Qed.

(** With both names given, the call is decided by the loop and then by the
    parser. *)
Lemma AddUser_named firstName lastName email m :
  firstName <> "" -> lastName <> "" ->
  AddUser firstName lastName email m =
  match range_users firstName lastName 0 (users_ m) with
  | Some _ => (Some DuplicateUser, m)
  | None =>
      match ParseAddress email with
      | None => (Some (InvalidEmail email), m)
      | Some a => (None, mkManager (users_ m ++ [mkUser firstName lastName a]))
      end
  end.
Proof.
  intros Hf Hl. apply eqs_false in Hf, Hl.
  unfold users.AddUser. rewrite Hf, Hl.
  unfold mbind, St.M_bind at 1. rewrite GetUserByName_run.
  destruct (range_users firstName lastName 0 (users_ m)) as [p|]; simpl; [done |].
  by destruct (ParseAddress email).
Qed.

Lemma AddUser_present firstName lastName email m :
  firstName <> "" -> lastName <> "" ->
  (exists u, u ∈ users_ m /\ same_names firstName lastName u) ->
  AddUser firstName lastName email m = (Some DuplicateUser, m).
Proof.
  intros Hf Hl (u & Hin & Hu). rewrite AddUser_named by done.
  destruct (range_users firstName lastName 0 (users_ m)) as [p|] eqn:Hr; [done |].
  exfalso. by apply (proj1 (range_users_None _ _ _ _) Hr u).
Qed.

Lemma AddUser_absent firstName lastName email m :
  firstName <> "" -> lastName <> "" ->
  (forall u, u ∈ users_ m -> ~ same_names firstName lastName u) ->
  AddUser firstName lastName email m =
  match ParseAddress email with
  | None => (Some (InvalidEmail email), m)
  | Some a => (None, mkManager (users_ m ++ [mkUser firstName lastName a]))
  end.
Proof.
  intros Hf Hl Hfresh. rewrite AddUser_named by done.
  by rewrite (proj2 (range_users_None _ _ _ 0) Hfresh).
Qed.

(** Every call either fails and leaves the registry as it was, or appends
    one record with the names it was given. *)
Lemma AddUser_cases firstName lastName email m :
  (exists e, AddUser firstName lastName email m = (Some e, m)) \/
  (exists a, ParseAddress email = Some a /\ firstName <> "" /\ lastName <> "" /\
     (forall u, u ∈ users_ m -> ~ same_names firstName lastName u) /\
     AddUser firstName lastName email m =
       (None, mkManager (users_ m ++ [mkUser firstName lastName a]))).
Proof.
  destruct (decide (firstName = "")) as [-> | Hf];
    [left; eexists; apply AddUser_no_first |].
  destruct (decide (lastName = "")) as [-> | Hl];
    [left; eexists; by apply AddUser_no_last |].
  rewrite AddUser_named by done.
  destruct (range_users firstName lastName 0 (users_ m)) as [p|] eqn:Hr;
    [left; by eexists |].
  destruct (ParseAddress email) as [a|]; [right | left; by eexists].
  exists a. split_and!; try done. by apply (range_users_None _ _ _ 0).
Qed.

End AddUser.

End users_facts.

(** ** The registry: failures of [AddUser] *)

Module registry_errors.
Import Go Go_facts users registry lookup_facts users_facts.

Section AddUser.

Variable ParseAddress : string -> option mail.Address.

Local Abbreviation AddUser := (users.AddUser ParseAddress).

(** An error of [AddUser] is one of four. *)
Lemma AddUser_error_kinds firstName lastName email m err :
  St.result (AddUser firstName lastName email) m = Some err ->
  err = InvalidFirstName \/ err = InvalidLastName \/ err = DuplicateUser \/
  err = InvalidEmail email.
Proof.
  unfold St.result.
  destruct (decide (firstName = "")) as [-> | Hf].
  { rewrite AddUser_no_first. intros [= <-]. by left. }
  destruct (decide (lastName = "")) as [-> | Hl].
  { rewrite AddUser_no_last by done. intros [= <-]. right; by left. }
  rewrite AddUser_named by done.
  destruct (range_users firstName lastName 0 (users_ m)).
  { intros [= <-]. right; right; by left. }
  destruct (ParseAddress email); simpl; [discriminate |].
  intros [= <-]. by repeat right.
Qed.

(** C1. When the registry already holds a record with the pair of names
    (both non-empty), [AddUser] returns the "user already exists" error
    and leaves the registry as it was.  In particular, after one
    successful [AddUser] on a new registry, a second call with the same
    names (and any address) fails that way and the registry still has one
    record. *)
Theorem AddUser_duplicate :
  (forall m firstName lastName email,
     firstName <> "" -> lastName <> "" ->
     (exists u, u ∈ users_ m /\ same_names firstName lastName u) ->
     AddUser firstName lastName email m = (Some DuplicateUser, m)) /\
  (forall firstName lastName email email',
     St.result (AddUser firstName lastName email) NewManager = None ->
     let m1 := St.after (AddUser firstName lastName email) NewManager in
     AddUser firstName lastName email' m1 = (Some DuplicateUser, m1) /\
     length (users_ m1) = 1 /\
     length (users_ (St.after (AddUser firstName lastName email') m1)) = 1).
Proof.
  split; [intros; by apply AddUser_present |].
  intros firstName lastName email email' Hok m1. subst m1.
  unfold St.result, St.after in *.
  destruct (AddUser_cases ParseAddress firstName lastName email NewManager)
    as [[e He] | (a & _ & Hf & Hl & _ & Hadd)].
  { rewrite He in Hok. discriminate. }
  rewrite Hadd. simpl.
  assert (AddUser firstName lastName email'
            (mkManager [mkUser firstName lastName a])
          = (Some DuplicateUser, mkManager [mkUser firstName lastName a])) as Hdup.
  { apply AddUser_present; [done | done |].
    exists (mkUser firstName lastName a). split; [left | done]. }
  by rewrite Hdup.
Qed.

(** C2. The checks of [AddUser] come in the order: empty first name,
    empty last name, pair of names already present, address that does not
    parse.  An empty first name gives the first-name error whatever the
    other arguments and the registry are; each later error is returned
    exactly when the earlier checks pass; and the four errors are
    different values. *)
Theorem AddUser_check_order :
  (forall m lastName email,
     AddUser "" lastName email m = (Some InvalidFirstName, m)) /\
  (forall m firstName email,
     firstName <> "" ->
     AddUser firstName "" email m = (Some InvalidLastName, m)) /\
  (forall m firstName lastName email,
     firstName <> "" -> lastName <> "" ->
     (exists u, u ∈ users_ m /\ same_names firstName lastName u) ->
     AddUser firstName lastName email m = (Some DuplicateUser, m)) /\
  (forall m firstName lastName email,
     firstName <> "" -> lastName <> "" ->
     (forall u, u ∈ users_ m -> ~ same_names firstName lastName u) ->
     ParseAddress email = None ->
     AddUser firstName lastName email m = (Some (InvalidEmail email), m)) /\
  (InvalidFirstName <> InvalidLastName /\
   InvalidFirstName <> DuplicateUser /\
   InvalidLastName <> DuplicateUser /\
   forall email,
     InvalidFirstName <> InvalidEmail email /\
     InvalidLastName <> InvalidEmail email /\
     DuplicateUser <> InvalidEmail email).
Proof.
  split_and!; try discriminate.
  - intros. apply AddUser_no_first.
  - intros. by apply AddUser_no_last.
  - intros. by apply AddUser_present.
  - intros m firstName lastName email Hf Hl Hfresh Hparse.
    rewrite AddUser_absent by done. by rewrite Hparse.
  - intros email. split_and!; discriminate.
Qed.

(** C4. A call of [AddUser] that returns an error, whichever it is, leaves
    the registry exactly as it was. *)
Theorem AddUser_failure_unchanged firstName lastName email m err :
  St.result (AddUser firstName lastName email) m = Some err ->
  St.after (AddUser firstName lastName email) m = m.
Proof.
  unfold St.result, St.after.
  destruct (AddUser_cases ParseAddress firstName lastName email m)
    as [[e He] | (a & _ & _ & _ & _ & Hadd)].
  - by rewrite He.
  - rewrite Hadd. discriminate.
Qed.

(** C8. What [GetUserByName] returns never passes the test
    [err != nil && !errors.Is(err, ErrNoResultFound)]: it is a pointer with
    no error, or no pointer with the sentinel.  So [AddUser] never takes the
    branch that wraps a lookup error, and no error it returns carries the
    message of that branch. *)
Theorem AddUser_lookup_error_unreachable :
  (forall m first last,
     (exists p, St.result (GetUserByName first last) m = (Some p, None)) \/
     St.result (GetUserByName first last) m = (None, Some ErrNoResultFound)) /\
  (forall m first last,
     lookup_failed (St.result (GetUserByName first last) m).2 = false) /\
  (forall m firstName lastName email err,
     St.result (AddUser firstName lastName email) m = Some err ->
     ~ has_prefix "error getting user by name: " (Error err)).
Proof.
  split_and!.
  - intros. apply GetUserByName_shape.
  - intros m first last.
    by destruct (GetUserByName_shape first last m) as [[p ->] | ->].
  - intros m firstName lastName email err Herr.
    unfold has_prefix.
    destruct (AddUser_error_kinds _ _ _ _ _ Herr) as [-> | [-> | [-> | ->]]];
      simpl; discriminate.
Qed.

End AddUser.

End registry_errors.

(** ** The registry: lookup, success of [AddUser], the invariant *)

Module registry_state.
Import Go Go_facts users registry lookup_facts users_facts.

(** C6. [GetUserByName] returns the pointer to position [p] exactly when
    [p] is the first position, in the order of the slice, whose record has
    this first name and this last name (equality of strings: no folding of
    case, no trimming, no prefix); it returns [ErrNoResultFound] exactly
    when no record has both; and it returns one or the other.  On an empty
    registry, and on a registry whose records all have non-empty names when
    either argument is empty, the result is [ErrNoResultFound]. *)
Theorem GetUserByName_first_match :
  (forall m first last p,
     St.result (GetUserByName first last) m = (Some p, None) <->
     exists u, users_ m !! p = Some u /\ same_names first last u /\
       forall k v, k < p -> users_ m !! k = Some v -> ~ same_names first last v) /\
  (forall m first last,
     St.result (GetUserByName first last) m = (None, Some ErrNoResultFound) <->
     forall u, u ∈ users_ m -> ~ same_names first last u) /\
  (forall m first last,
     (exists p, St.result (GetUserByName first last) m = (Some p, None)) \/
     St.result (GetUserByName first last) m = (None, Some ErrNoResultFound)) /\
  (forall first last,
     St.result (GetUserByName first last) NewManager = (None, Some ErrNoResultFound)) /\
  (forall m first last,
     names_nonempty m -> first = "" \/ last = "" ->
     St.result (GetUserByName first last) m = (None, Some ErrNoResultFound)).
Proof.
  assert (forall m first last,
     St.result (GetUserByName first last) m = (None, Some ErrNoResultFound) <->
     forall u, u ∈ users_ m -> ~ same_names first last u) as Hnone.
  { intros m first last. unfold St.result. rewrite GetUserByName_run. simpl.
    rewrite <- (range_users_None first last (users_ m) 0).
    destruct (range_users first last 0 (users_ m)); split; congruence. }
  split_and!.
  - intros m first last p. unfold St.result. rewrite GetUserByName_run. simpl.
    transitivity (range_users first last 0 (users_ m) = Some p).
    { destruct (range_users first last 0 (users_ m)); split; congruence. }
    rewrite range_users_Some. split.
    + intros (j & u & -> & Hj & Hu & Hmin). by exists u.
    + intros (u & Hp & Hu & Hmin). by exists p, u.
  - apply Hnone.
  - intros. apply GetUserByName_shape.
  - intros first last. apply Hnone. intros u Hu. inversion Hu.
  - intros m first last Hne Hempty. apply Hnone. intros u Hu [Hf Hl].
    destruct (Hne u Hu) as [Hf' Hl']. destruct Hempty; congruence.
Qed.

(** C10. [GetUserByName] leaves the registry as it was, whatever it
    returns: the slice, its length and every record are the same. *)
Theorem GetUserByName_unchanged first last m :
  St.after (GetUserByName first last) m = m /\
  users_ (St.after (GetUserByName first last) m) = users_ m /\
  length (users_ (St.after (GetUserByName first last) m)) = length (users_ m) /\
  forall i, users_ (St.after (GetUserByName first last) m) !! i = users_ m !! i.
Proof.
  unfold St.after. rewrite GetUserByName_run. by simpl.
Qed.

Section AddUser.

Variable ParseAddress : string -> option mail.Address.

Local Abbreviation AddUser := (users.AddUser ParseAddress).

(** C5, as the code has it.  With non-empty names, an address that parses and no record with
    this pair of names in the registry, [AddUser] returns no error and
    appends one record; [GetUserByName] with the same names then returns a
    pointer to a record whose names are the ones given and whose [Email] is
    the address the given string parses to. *)
Theorem AddUser_then_GetUserByName firstName lastName email a m :
  firstName <> "" -> lastName <> "" ->
  (forall u, u ∈ users_ m -> ~ same_names firstName lastName u) ->
  ParseAddress email = Some a ->
  St.result (AddUser firstName lastName email) m = None /\
  let m' := St.after (AddUser firstName lastName email) m in
  users_ m' = (users_ m ++ [mkUser firstName lastName a])%list /\
  exists p,
    St.result (GetUserByName firstName lastName) m' = (Some p, None) /\
    deref m' p = Some (mkUser firstName lastName a).
Proof.
  intros Hf Hl Hfresh Hparse. unfold St.result, St.after.
  rewrite AddUser_absent, Hparse by done. simpl.
  split_and!; try done.
  exists (length (users_ m)). rewrite GetUserByName_run. simpl.
  rewrite range_users_app_fresh by done. simpl. split; [done |].
  unfold deref. simpl. by rewrite list_lookup_middle.
Qed.

(** [AddUser] keeps the invariant. *)
Lemma AddUser_invariant firstName lastName email m :
  invariant m -> invariant (St.after (AddUser firstName lastName email) m).
Proof.
  intros [Huniq Hne]. unfold St.after.
  destruct (AddUser_cases ParseAddress firstName lastName email m)
    as [[e ->] | (a & _ & Hf & Hl & Hfresh & ->)]; [done |].
  simpl. split.
  - intros i j u v Hi Hj Hfn Hln. simpl in Hi, Hj.
    apply lookup_app_Some in Hi as [Hi | [Hi Hi']];
      apply lookup_app_Some in Hj as [Hj | [Hj Hj']].
    + by apply (Huniq i j u v).
    + apply list_lookup_singleton_Some in Hj' as [_ <-]. simpl in *.
      exfalso. apply (Hfresh u); [by eapply list_elem_of_lookup_2 | done].
    + apply list_lookup_singleton_Some in Hi' as [_ <-]. simpl in *.
      exfalso. apply (Hfresh v); [by eapply list_elem_of_lookup_2 | done].
    + apply list_lookup_singleton_Some in Hi' as [Hi' _].
      apply list_lookup_singleton_Some in Hj' as [Hj' _]. lia.
  - intros u Hu. simpl in Hu. apply elem_of_app in Hu as [Hu | Hu]; [by apply Hne |].
    apply list_elem_of_singleton in Hu as ->. by simpl.
Qed.

(** C3. The invariant (no two records with the same pair of names, and
    every record with a non-empty first name and a non-empty last name)
    holds of a new registry, is kept by [AddUser] and by [GetUserByName],
    and so holds of every registry built from a new one by calls of the
    two. *)
Theorem invariant_reachable :
  invariant NewManager /\
  (forall m firstName lastName email,
     invariant m -> invariant (St.after (AddUser firstName lastName email) m)) /\
  (forall m first last,
     invariant m -> invariant (St.after (GetUserByName first last) m)) /\
  (forall m, reachable ParseAddress m -> invariant m).
Proof.
  assert (invariant NewManager) as Hnew.
  { split; [intros i j u v Hi; inversion Hi | intros u Hu; inversion Hu]. }
  assert (forall m first last,
            invariant m -> invariant (St.after (GetUserByName first last) m)) as Hget.
  { intros m first last Hm. unfold St.after. by rewrite GetUserByName_run. }
  split_and!; try done.
  - intros. by apply AddUser_invariant.
  - induction 1; [done | by apply AddUser_invariant | by apply Hget].
Qed.

End AddUser.

End registry_state.

(** ** The handlers *)

Module server_facts.
Import Go Go_facts server http.

Lemma index_Values_append (v : Values) kv key :
  index (Values_append v kv) key =
  if eqs kv.1 key then (index v key ++ [kv.2])%list else index v key.
Proof.
  unfold Values_append, index at 1.
  destruct (eqs kv.1 key) eqn:Hk.
  - apply eqs_true in Hk as <-. by rewrite lookup_insert_eq.
  - apply eqs_false in Hk. by rewrite lookup_insert_ne.
Qed.

(** [url.Values] keeps, for each key, its values in the order of the
    query string. *)
Lemma index_foldl pairs : forall (v : Values) key,
  index (foldl Values_append v pairs) key = (index v key ++ values_of key pairs)%list.
Proof.
  induction pairs as [|[k x] rest IH]; intros v key; simpl.
  - by rewrite app_nil_r.
  - rewrite IH, index_Values_append. simpl.
    destruct (eqs k key); [by rewrite <- app_assoc | done].
Qed.

Lemma index_URL_Query r key :
  index (URL_Query r) key = values_of key (URL_RawQuery r).
Proof. unfold URL_Query. by rewrite index_foldl. Qed.

Lemma values_of_first key before x rest :
  (forall kv, kv ∈ before -> kv.1 <> key) ->
  values_of key (before ++ (key, x) :: rest) = x :: values_of key rest.
Proof.
  induction before as [|[k y] before IH]; intros Hb; simpl.
  - by rewrite eqs_refl.
  - assert (eqs k key = false) as ->.
    { apply eqs_false. apply (Hb (k, y)). left. }
    apply IH. intros kv Hkv. apply Hb. by right.
Qed.

Lemma values_of_absent key pairs :
  (forall kv, kv ∈ pairs -> kv.1 <> key) -> values_of key pairs = [].
Proof.
  induction pairs as [|[k y] pairs IH]; intros Hb; simpl; [done |].
  assert (eqs k key = false) as ->.
  { apply eqs_false. apply (Hb (k, y)). left. }
  apply IH. intros kv Hkv. apply Hb. by right.
Qed.

Lemma handleHello_new username :
  handleHello NewRecorder username = response StatusOK ("Hello " +:+ username +:+ "!" +:+ LF).
Proof. reflexivity. Qed.

Lemma http_Error_new error code :
  http_Error NewRecorder error code = response code (error +:+ LF).
Proof. reflexivity. Qed.

(** The name [handleHelloParameterized] greets. *)
Lemma handleHelloParameterized_run r :
  handleHelloParameterized NewRecorder r =
  response StatusOK
    ("Hello " +:+ match values_of "user" (URL_RawQuery r) with
                  | [] => "User"
                  | v :: _ => v
                  end +:+ "!" +:+ LF).
Proof.
  unfold handleHelloParameterized. rewrite index_URL_Query.
  by destruct (values_of "user" (URL_RawQuery r)).
Qed.

(** C9. When the query string has a [user] parameter,
    [handleHelloParameterized] answers 200 and greets the value of the
    first one, also when that value is the empty string: the body is then
    "Hello !" and a newline, not the greeting of the default name.  The
    default name is greeted only when there is no [user] parameter. *)
Theorem handleHelloParameterized_first_user :
  (forall path before v rest body,
     (forall kv, kv ∈ before -> kv.1 <> "user") ->
     handleHelloParameterized NewRecorder
       (mkRequest path (before ++ ("user", v) :: rest) body)
     = response 200 ("Hello " +:+ v +:+ "!" +:+ LF)) /\
  (forall path before rest body,
     (forall kv, kv ∈ before -> kv.1 <> "user") ->
     let w := handleHelloParameterized NewRecorder
                (mkRequest path (before ++ ("user", "") :: rest) body) in
     Code w = 200 /\ Body w = "Hello !" +:+ LF /\ Body w <> "Hello User!" +:+ LF) /\
  (forall path query body,
     (forall kv, kv ∈ query -> kv.1 <> "user") ->
     handleHelloParameterized NewRecorder (mkRequest path query body)
     = response 200 ("Hello User!" +:+ LF)).
Proof.
  split_and!.
  - intros path before v rest body Hb.
    rewrite handleHelloParameterized_run. simpl.
    by rewrite values_of_first.
  - intros path before rest body Hb w. subst w.
    rewrite handleHelloParameterized_run. simpl.
    rewrite values_of_first by done. simpl. split_and!; [done | done | discriminate].
  - intros path query body Hq.
    rewrite handleHelloParameterized_run. simpl.
    by rewrite values_of_absent.
Qed.

Section handleJSON.

Variable json_Unmarshal : string -> UserData -> option error * UserData.

Local Abbreviation handleJSON := (server.handleJSON json_Unmarshal).

(** A body that cannot be read is answered with 400 "bad request body". *)
Lemma handleJSON_read_error path query data e :
  handleJSON NewRecorder (mkRequest path query (data, Some e))
  = response StatusBadRequest ("bad request body" +:+ LF).
Proof. reflexivity. Qed.

(** C7, as the handler has it.  [handleJSON] answers 400 "empty request
    body" to an empty body; 400 "error parsing request body" to a
    non-empty body that [json.Unmarshal] rejects; 400 "invalid request
    body!" to a body that decodes to an empty [Name]; and 200 with the
    greeting of [Name] to a body that decodes to a non-empty [Name]. *)
Theorem handleJSON_responses :
  (forall path query,
     handleJSON NewRecorder (request path query "")
     = response 400 ("empty request body" +:+ LF)) /\
  (forall path query data,
     data <> "" -> rejects json_Unmarshal data ->
     handleJSON NewRecorder (request path query data)
     = response 400 ("error parsing request body" +:+ LF)) /\
  (forall path query data d,
     data <> "" -> decodes json_Unmarshal data d -> Name d = "" ->
     handleJSON NewRecorder (request path query data)
     = response 400 ("invalid request body!" +:+ LF)) /\
  (forall path query data d,
     data <> "" -> decodes json_Unmarshal data d -> Name d <> "" ->
     handleJSON NewRecorder (request path query data)
     = response 200 ("Hello " +:+ Name d +:+ "!" +:+ LF)).
Proof.
  assert (forall data, data <> "" -> bool_decide (String.length data = 0) = false) as Hlen.
  { intros [|c data] Hd; [done | by apply bool_decide_eq_false]. }
  split_and!.
  - reflexivity.
  - intros path query data Hd Hrej. unfold server.handleJSON, request. simpl.
    rewrite Hlen by done. unfold rejects in Hrej.
    destruct (json_Unmarshal data (mkUserData "")) as [[e|] d]; [done | by simpl in Hrej].
  - intros path query data d Hd Hdec Hname. unfold server.handleJSON, request. simpl.
    rewrite Hlen by done. unfold decodes in Hdec. rewrite Hdec. simpl.
    by rewrite Hname.
  - intros path query data d Hd Hdec Hname. unfold server.handleJSON, request. simpl.
    rewrite Hlen by done. unfold decodes in Hdec. rewrite Hdec. simpl.
    apply eqs_false in Hname. by rewrite Hname.
Qed.

End handleJSON.

End server_facts.

(** ** The properties on the calls of the tests *)

Module scenario_facts.
Import Go users registry server http scenarios.

(** [TestAddUser], [TestAddUserInvalidEmail], [TestAddUserFirstName],
    [TestAddUserLastName] *)
Example TestAddUser :
  AddUser parse "jhon" "smith" "foo@bar.com" NewManager = (None, one_user).
Proof. reflexivity. Qed.

Example TestAddUserInvalidEmail :
  AddUser parse "jhon" "smith" "foobar" NewManager
  = (Some (errorString "invalid email: foobar"), NewManager).
Proof. reflexivity. Qed.

Example TestAddUserFirstName :
  AddUser parse "" "smith" "<foo@bar.com>" NewManager
  = (Some (errorString ("invalid first name: " +:+ DQ +:+ DQ)), NewManager).
Proof. reflexivity. Qed.

Example TestAddUserLastName :
  AddUser parse "jhon" "" "<foo@bar.com>" NewManager
  = (Some (errorString ("invalid last name: " +:+ DQ +:+ DQ)), NewManager).
Proof. reflexivity. Qed.

(** [TestGetUserByName]: the four calls build the registry, and the table
    of lookups. *)
Example TestGetUserByName_setup :
  St.after (AddUser parse "fozz" "foo" "fooz@bar.com")
    (St.after (AddUser parse "barz" "foo" "barz@bar.com")
      (St.after (AddUser parse "bari" "foo" "bar@bar.com")
        (St.after (AddUser parse "foo" "bar" "f.foo@bar.com") NewManager)))
  = four_users.
Proof. reflexivity. Qed.

Example TestGetUserByName_table :
  St.result (GetUserByName "foo" "bar") four_users = (Some 0, None) /\
  St.result (GetUserByName "bari" "foo") four_users = (Some 1, None) /\
  St.result (GetUserByName "rgdf" "rgter") four_users = (None, Some ErrNoResultFound) /\
  St.result (GetUserByName "fozz" "fozz") four_users = (None, Some ErrNoResultFound) /\
  St.result (GetUserByName "foo" "foo") four_users = (None, Some ErrNoResultFound) /\
  St.result (GetUserByName "" "fozz") four_users = (None, Some ErrNoResultFound) /\
  St.result (GetUserByName "fozz" "") four_users = (None, Some ErrNoResultFound).
Proof. repeat split. Qed.

(** Lookup compares the bytes: another case, a space, or a prefix is
    another name. *)
Example GetUserByName_exact :
  St.result (GetUserByName "Foo" "bar") four_users = (None, Some ErrNoResultFound) /\
  St.result (GetUserByName "foo " "bar") four_users = (None, Some ErrNoResultFound) /\
  St.result (GetUserByName "fo" "bar") four_users = (None, Some ErrNoResultFound) /\
  St.result (GetUserByName "foo" "ba") four_users = (None, Some ErrNoResultFound).
Proof. repeat split. Qed.

(** The query strings of the handler tests, cut into pieces. *)
Example pieces_of_tests :
  pieces "user=Testing" = [("user", "Testing")] /\
  pieces "" = [] /\
  pieces "foo=bar" = [("foo", "bar")] /\
  pieces "user=" = [("user", "")] /\
  pieces "foo=bar&user=a&user=b" = [("foo", "bar"); ("user", "a"); ("user", "b")].
Proof. repeat split. Qed.

(** The handler tests of [main_test.go]. *)
Example TestHandleHelloParameterized :
  handleHelloParameterized NewRecorder (request "/hello" (pieces "user=Testing") "")
  = response 200 ("Hello Testing!" +:+ LF).
Proof. reflexivity. Qed.

Example TestHandleHelloNoParameterized :
  handleHelloParameterized NewRecorder (request "/hello/" (pieces "") "")
  = response 200 ("Hello User!" +:+ LF).
Proof. reflexivity. Qed.

Example TestHandleHelloWrongParameterized :
  handleHelloParameterized NewRecorder (request "/hello" (pieces "foo=bar") "")
  = response 200 ("Hello User!" +:+ LF).
Proof. reflexivity. Qed.

Example TestHandleJSON :
  handleJSON sample_Unmarshal NewRecorder (request "/josn" [] (marshalled "human"))
  = response 200 ("Hello human!" +:+ LF).
Proof. reflexivity. Qed.

Example TestHandleJSONEmptyBody :
  handleJSON sample_Unmarshal NewRecorder (request "/json" [] "")
  = response 400 ("empty request body" +:+ LF).
Proof. reflexivity. Qed.

Example TestHandleJSONEmptyNameFeild :
  handleJSON sample_Unmarshal NewRecorder (request "/json" [] (marshalled ""))
  = response 400 ("invalid request body!" +:+ LF).
Proof. reflexivity. Qed.

(** The earlier revision of [AddUser] has no lookup: the second of two
    equal calls succeeds as well and the registry holds the pair twice. *)
Example initial_AddUser_repeats :
  users_initial.AddUser parse "jhon" "smith" "foo@bar.com" one_user
  = (None, mkManager (users_ one_user ++ users_ one_user)).
Proof. reflexivity. Qed.

End scenario_facts.

(** ** The theorems at the calls of the tests *)

Module instances.
Import Go users registry server http scenarios.
Import registry_errors registry_state server_facts.

(** [TestAddUserDuplicateName]: the second call, on the registry the first
    one left. *)
Lemma AddUser_duplicate_witness :
  AddUser parse "jhon" "smith" "<foo@bar.com>" one_user = (Some DuplicateUser, one_user) /\
  (St.result (AddUser parse "jhon" "smith" "<foo@bar.com>") NewManager = None /\
   let m1 := St.after (AddUser parse "jhon" "smith" "<foo@bar.com>") NewManager in
   AddUser parse "jhon" "smith" "<foo@bar.com>" m1 = (Some DuplicateUser, m1) /\
   length (users_ m1) = 1 /\
   length (users_ (St.after (AddUser parse "jhon" "smith" "<foo@bar.com>") m1)) = 1).
Proof.
  split.
  - apply (proj1 (AddUser_duplicate parse)); [discriminate | discriminate |].
    exists (mkUser "jhon" "smith" (addr "foo@bar.com")).
    split; [left | split; reflexivity].
  - split; [reflexivity |].
    apply (proj2 (AddUser_duplicate parse) "jhon" "smith" "<foo@bar.com>" "<foo@bar.com>").
    reflexivity.
Defined.

(** An empty first name with an address that does not parse, and the
    three later checks. *)
Lemma AddUser_check_order_witness :
  AddUser parse "" "smith" "foobar" one_user = (Some InvalidFirstName, one_user) /\
  AddUser parse "jhon" "" "foobar" one_user = (Some InvalidLastName, one_user) /\
  AddUser parse "jhon" "smith" "foobar" one_user = (Some DuplicateUser, one_user) /\
  AddUser parse "bari" "foo" "foobar" one_user = (Some (InvalidEmail "foobar"), one_user).
Proof.
  destruct (AddUser_check_order parse) as (H1 & H2 & H3 & H4 & _).
  split; [apply H1 |].
  split; [apply H2; discriminate |].
  split.
  - apply H3; [discriminate | discriminate |].
    exists (mkUser "jhon" "smith" (addr "foo@bar.com")).
    split; [left | split; reflexivity].
  - apply H4; [discriminate | discriminate | | reflexivity].
    intros u Hu [Hf _]. apply list_elem_of_singleton in Hu. subst u. discriminate.
Defined.

(** The registry of [TestGetUserByName] is reachable, so it has the
    invariant. *)
Lemma invariant_reachable_witness : invariant four_users.
Proof.
  apply (proj2 (proj2 (proj2 (invariant_reachable parse)))).
  exact (reach_AddUser parse _ "fozz" "foo" "fooz@bar.com"
          (reach_AddUser parse _ "barz" "foo" "barz@bar.com"
            (reach_AddUser parse _ "bari" "foo" "bar@bar.com"
              (reach_AddUser parse _ "foo" "bar" "f.foo@bar.com"
                (reach_NewManager parse))))).
Defined.

(** [TestAddUserInvalidEmail] *)
Lemma AddUser_failure_unchanged_witness :
  St.result (AddUser parse "jhon" "smith" "foobar") NewManager = Some (InvalidEmail "foobar") /\
  St.after (AddUser parse "jhon" "smith" "foobar") NewManager = NewManager /\
  St.after (AddUser parse "jhon" "smith" "foo@bar.com") one_user = one_user.
Proof.
  split; [|split].
  - reflexivity.
  - apply (AddUser_failure_unchanged parse "jhon" "smith" "foobar" NewManager
             (InvalidEmail "foobar")).
    reflexivity.
  - apply (AddUser_failure_unchanged parse "jhon" "smith" "foo@bar.com" one_user
             DuplicateUser).
    reflexivity.
Defined.

(** [TestAddUser], followed by the lookup of the record it added. *)
Lemma AddUser_then_GetUserByName_witness :
  St.result (AddUser parse "jhon" "smith" "foo@bar.com") NewManager = None /\
  let m' := St.after (AddUser parse "jhon" "smith" "foo@bar.com") NewManager in
  users_ m' = (users_ NewManager ++ [mkUser "jhon" "smith" (addr "foo@bar.com")])%list /\
  exists p,
    St.result (GetUserByName "jhon" "smith") m' = (Some p, None) /\
    deref m' p = Some (mkUser "jhon" "smith" (addr "foo@bar.com")).
Proof.
  apply (AddUser_then_GetUserByName parse "jhon" "smith" "foo@bar.com"
           (addr "foo@bar.com") NewManager);
    [discriminate | discriminate | | reflexivity].
  intros u Hu. inversion Hu.
Defined.

(** The lookups of [TestGetUserByName] for a record that is there, and
    with an empty name. *)
Lemma GetUserByName_first_match_witness :
  (exists u, users_ four_users !! 1 = Some u /\ same_names "bari" "foo" u /\
     forall k v, k < 1 -> users_ four_users !! k = Some v -> ~ same_names "bari" "foo" v) /\
  St.result (GetUserByName "" "fozz") four_users = (None, Some ErrNoResultFound).
Proof.
  destruct GetUserByName_first_match as (Hsome & _ & _ & _ & Hempty).
  split.
  - apply (Hsome four_users "bari" "foo" 1). reflexivity.
  - apply Hempty; [| left; reflexivity].
    intros u Hu. unfold four_users in Hu. simpl in Hu.
    repeat (apply elem_of_cons in Hu as [-> | Hu]; [split; discriminate |]).
    inversion Hu.
Defined.

(** The error of a duplicate is not the wrapped lookup error. *)
Lemma AddUser_lookup_error_unreachable_witness :
  ~ has_prefix "error getting user by name: " (Error DuplicateUser).
Proof.
  apply (proj2 (proj2 (AddUser_lookup_error_unreachable parse))
           one_user "jhon" "smith" "foo@bar.com" DuplicateUser).
  reflexivity.
Defined.

(** [/hello/?user=], [/hello/?foo=bar&user=a&user=b] and [/hello/?foo=bar]. *)
Lemma handleHelloParameterized_first_user_witness :
  handleHelloParameterized NewRecorder (request "/hello/" (pieces "user=") "")
  = response 200 ("Hello !" +:+ LF) /\
  handleHelloParameterized NewRecorder
    (request "/hello/" (pieces "foo=bar&user=a&user=b") "")
  = response 200 ("Hello a!" +:+ LF) /\
  handleHelloParameterized NewRecorder (request "/hello/" (pieces "foo=bar") "")
  = response 200 ("Hello User!" +:+ LF).
Proof.
  destruct handleHelloParameterized_first_user as (Hfirst & _ & Hnone).
  split; [| split].
  - apply (Hfirst "/hello/" [] "" [] ("", None)). intros kv Hkv. inversion Hkv.
  - apply (Hfirst "/hello/" [("foo", "bar")] "a" [("user", "b")] ("", None)).
    intros kv Hkv. apply list_elem_of_singleton in Hkv. subst kv. discriminate.
  - apply (Hnone "/hello/" [("foo", "bar")] ("", None)).
    intros kv Hkv. apply list_elem_of_singleton in Hkv. subst kv. discriminate.
Defined.

(** The three handler tests, and a body that is not JSON. *)
Lemma handleJSON_responses_witness :
  handleJSON sample_Unmarshal NewRecorder (request "/json" [] "")
  = response 400 ("empty request body" +:+ LF) /\
  handleJSON sample_Unmarshal NewRecorder (request "/json" [] open_brace)
  = response 400 ("error parsing request body" +:+ LF) /\
  handleJSON sample_Unmarshal NewRecorder (request "/json" [] (marshalled ""))
  = response 400 ("invalid request body!" +:+ LF) /\
  handleJSON sample_Unmarshal NewRecorder (request "/json" [] (marshalled "human"))
  = response 200 ("Hello human!" +:+ LF).
Proof.
  destruct (handleJSON_responses sample_Unmarshal) as (H1 & H2 & H3 & H4).
  split; [apply H1 |].
  split; [apply H2; discriminate |].
  split; [apply (H3 _ _ _ (mkUserData "")); [discriminate | reflexivity | reflexivity] |].
  apply (H4 "/json" [] (marshalled "human") (mkUserData "human"));
    [discriminate | reflexivity | discriminate].
Defined.

(** C7 fails on a body that is not JSON: the decoder rejects the body, and
    the handler answers 400 "error parsing request body", not 400 "invalid
    request body!". *)
Lemma handleJSON_malformed_counterexample :
  rejects sample_Unmarshal open_brace /\
  handleJSON sample_Unmarshal NewRecorder (request "/json" [] open_brace)
  = response 400 ("error parsing request body" +:+ LF) /\
  handleJSON sample_Unmarshal NewRecorder (request "/json" [] open_brace)
  <> response 400 ("invalid request body!" +:+ LF).
Proof.
  split; [discriminate |]. split; [reflexivity | discriminate].
Qed.

End instances.

(** ** The registry under further calls *)

Module registry_growth.
Import Go Go_facts users registry lookup_facts users_facts calls.

Lemma range_users_app_found first last us more : forall i p,
  range_users first last i us = Some p ->
  range_users first last i (us ++ more) = Some p.
Proof.
  induction us as [|user rest IH]; intros i p; simpl; [discriminate |].
  destruct (matches first last user); [done | apply IH].
Qed.

Lemma range_users_app_other first last us u : forall i,
  ~ same_names first last u ->
  range_users first last i (us ++ [u]) = range_users first last i us.
Proof.
  intros i Hu. apply matches_false in Hu. revert i.
  induction us as [|user rest IH]; intros i; simpl; [by rewrite Hu |].
  destruct (matches first last user); [done | apply IH].
Qed.

Lemma present_range_users first last m :
  present first last m <-> exists p, range_users first last 0 (users_ m) = Some p.
Proof.
  unfold present. split.
  - intros (u & Hin & Hu).
    destruct (range_users first last 0 (users_ m)) as [p|] eqn:Hr; [by exists p |].
    exfalso. by apply (proj1 (range_users_None _ _ _ _) Hr u).
  - intros [p Hp]. apply range_users_Some in Hp as (j & u & _ & Hj & Hu & _).
    exists u. split; [by eapply list_elem_of_lookup_2 | done].
Qed.

Lemma present_found first last m :
  present first last m <->
  exists p, St.result (GetUserByName first last) m = (Some p, None).
Proof.
  rewrite present_range_users. unfold St.result. rewrite GetUserByName_run. simpl.
  destruct (range_users first last 0 (users_ m)) as [q|]; split;
    intros [p Hp]; try discriminate; by exists q.
Qed.

Section AddUser.

Variable ParseAddress : string -> option mail.Address.

Local Abbreviation AddUser := (users.AddUser ParseAddress).

(** The slice after a call: the slice before it, and the new record when
    the call returned no error. *)
Lemma AddUser_after firstName lastName email m :
  users_ (St.after (AddUser firstName lastName email) m) =
  (users_ m ++
   match St.result (AddUser firstName lastName email) m, ParseAddress email with
   | None, Some a => [mkUser firstName lastName a]
   | _, _ => []
   end)%list.
Proof.
  unfold St.after, St.result.
  destruct (AddUser_cases ParseAddress firstName lastName email m)
    as [[e ->] | (a & Hp & _ & _ & _ & ->)]; simpl.
  - by rewrite app_nil_r.
  - by rewrite Hp.
Qed.

Lemma AddUser_keeps firstName lastName email m i u :
  users_ m !! i = Some u ->
  users_ (St.after (AddUser firstName lastName email) m) !! i = Some u.
Proof. intros Hi. rewrite AddUser_after. by apply lookup_app_l_Some. Qed.

Lemma AddUser_length firstName lastName email m :
  length (users_ (St.after (AddUser firstName lastName email) m)) =
  length (users_ m) +
  (if St.result (AddUser firstName lastName email) m is None then 1 else 0).
Proof.
  unfold St.after, St.result.
  destruct (AddUser_cases ParseAddress firstName lastName email m)
    as [[e ->] | (a & _ & _ & _ & _ & ->)]; simpl; [lia |].
  rewrite length_app. simpl. lia.
Qed.

Lemma range_users_after_found firstName lastName email m first last p :
  range_users first last 0 (users_ m) = Some p ->
  range_users first last 0 (users_ (St.after (AddUser firstName lastName email) m))
  = Some p.
Proof. intros Hp. rewrite AddUser_after. by apply range_users_app_found. Qed.

Lemma range_users_after_other firstName lastName email m first last :
  (first, last) <> (firstName, lastName) ->
  range_users first last 0 (users_ (St.after (AddUser firstName lastName email) m))
  = range_users first last 0 (users_ m).
Proof.
  intros Hne. rewrite AddUser_after.
  destruct (St.result (AddUser firstName lastName email) m);
    [by rewrite app_nil_r |].
  destruct (ParseAddress email) as [a|]; [| by rewrite app_nil_r].
  rewrite range_users_app_other; [done |].
  intros [Hf Hl]. simpl in *. congruence.
Qed.

(** X1.  [AddUser] returns no error exactly when both names are non-empty, no
    record of the registry has the pair, and the address parses. *)
Theorem AddUser_success_iff firstName lastName email m :
  St.result (AddUser firstName lastName email) m = None <->
  firstName <> "" /\ lastName <> "" /\ ~ present firstName lastName m /\
  is_Some (ParseAddress email).
Proof.
  unfold St.result. split.
  - destruct (AddUser_cases ParseAddress firstName lastName email m)
      as [[e ->] | (a & Hp & Hf & Hl & Hfresh & _)]; [discriminate |].
    intros _. split_and!; [done | done | | by rewrite Hp].
    intros (u & Hin & Hu). by apply (Hfresh u).
  - intros (Hf & Hl & Hfresh & [a Hp]).
    rewrite AddUser_absent, Hp; [done | done | done |].
    intros u Hin Hu. apply Hfresh. by exists u.
Qed.

(** X2.  [AddUser] only appends: the slice before the call is a prefix of the
    slice after it, every record stays at its index, and the length grows
    by one when the call returns no error and by nothing otherwise. *)
Theorem AddUser_append_only firstName lastName email m :
  let m' := St.after (AddUser firstName lastName email) m in
  users_ m `prefix_of` users_ m' /\
  (forall i u, users_ m !! i = Some u -> users_ m' !! i = Some u) /\
  length (users_ m') =
    length (users_ m) +
    (if St.result (AddUser firstName lastName email) m is None then 1 else 0).
Proof.
  intros m'. subst m'. split_and!.
  - rewrite AddUser_after. by apply prefix_app_r.
  - intros i u. apply AddUser_keeps.
  - apply AddUser_length.
Qed.

(** X3.  A record that a lookup finds is found by the same lookup, at the same
    index and with the same fields, after any call of [AddUser]. *)
Theorem GetUserByName_stable firstName lastName email m first last p :
  St.result (GetUserByName first last) m = (Some p, None) ->
  let m' := St.after (AddUser firstName lastName email) m in
  St.result (GetUserByName first last) m' = (Some p, None) /\
  is_Some (deref m p) /\ deref m' p = deref m p.
Proof.
  intros Hfound m'. subst m'.
  unfold St.result in *. rewrite GetUserByName_run in *. simpl in *.
  destruct (range_users first last 0 (users_ m)) as [q|] eqn:Hq; [| discriminate].
  injection Hfound as ->.
  rewrite (range_users_after_found _ _ _ _ _ _ _ Hq).
  apply range_users_Some in Hq as (j & u & -> & Hj & _ & _).
  change (0 + j) with j. unfold deref.
  split_and!; [done | by exists u |].
  transitivity (Some u); [by apply AddUser_keeps | done].
Qed.

(** X4.  A call of [AddUser] for one pair of names does not change what a
    lookup of another pair returns. *)
Theorem GetUserByName_other_pair firstName lastName email m first last :
  (first, last) <> (firstName, lastName) ->
  St.result (GetUserByName first last) (St.after (AddUser firstName lastName email) m)
  = St.result (GetUserByName first last) m.
Proof.
  intros Hne. unfold St.result. rewrite !GetUserByName_run. simpl.
  by rewrite range_users_after_other.
Qed.

End AddUser.

End registry_growth.

(** ** Calls of [AddUser] one after the other *)

Module registry_calls.
Import Go Go_facts users registry lookup_facts users_facts calls registry_growth.

Section AddUser.

Variable ParseAddress : string -> option mail.Address.

Local Abbreviation AddUser := (users.AddUser ParseAddress).
Local Abbreviation AddUsers := (calls.AddUsers ParseAddress).
Local Abbreviation adds := (calls.adds ParseAddress).

(** What [AddUser] returns depends on the registry only through whether
    the loop finds the pair of names. *)
Lemma AddUser_result_found firstName lastName email m m' :
  (is_Some (range_users firstName lastName 0 (users_ m)) <->
   is_Some (range_users firstName lastName 0 (users_ m'))) ->
  St.result (AddUser firstName lastName email) m
  = St.result (AddUser firstName lastName email) m'.
Proof.
  intros Hp. unfold St.result.
  destruct (decide (firstName = "")) as [-> | Hf];
    [by rewrite !AddUser_no_first |].
  destruct (decide (lastName = "")) as [-> | Hl];
    [by rewrite !AddUser_no_last |].
  rewrite !AddUser_named by done.
  destruct (range_users firstName lastName 0 (users_ m)) as [p|],
           (range_users firstName lastName 0 (users_ m')) as [p'|]; simpl.
  - done.
  - destruct (proj1 Hp) as [q Hq]; [by exists p | discriminate].
  - destruct (proj2 Hp) as [q Hq]; [by exists p' | discriminate].
  - by destruct (ParseAddress email).
Qed.

(** X5.  A call repeated at once always fails, with the error of the first
    call or, when the first call added the record, with the "user already
    exists" error; it leaves the registry as the first call left it. *)
Theorem AddUser_twice firstName lastName email m :
  let m1 := St.after (AddUser firstName lastName email) m in
  St.result (AddUser firstName lastName email) m1 =
    Some (default DuplicateUser (St.result (AddUser firstName lastName email) m)) /\
  St.after (AddUser firstName lastName email) m1 = m1.
Proof.
  intros m1. subst m1. unfold St.result, St.after.
  destruct (AddUser_cases ParseAddress firstName lastName email m)
    as [[e He] | (a & Hp & Hf & Hl & Hfresh & Hadd)].
  - rewrite He. simpl. by rewrite He.
  - rewrite Hadd. simpl.
    rewrite AddUser_present; [done | done | done |].
    exists (mkUser firstName lastName a). simpl.
    split; [apply elem_of_app; right; left | done].
Qed.

(** X6.  Calls for two different pairs of names do not interfere: the second
    returns what it would have returned without the first (also when both
    give the same address), and the two orders leave the same records. *)
Theorem AddUser_independent f1 l1 e1 f2 l2 e2 m :
  (f1, l1) <> (f2, l2) ->
  St.result (AddUser f2 l2 e2) (St.after (AddUser f1 l1 e1) m)
    = St.result (AddUser f2 l2 e2) m /\
  users_ (St.after (AddUser f2 l2 e2) (St.after (AddUser f1 l1 e1) m))
    ≡ₚ users_ (St.after (AddUser f1 l1 e1) (St.after (AddUser f2 l2 e2) m)).
Proof.
  intros Hne.
  assert (forall f l e f' l' e', (f, l) <> (f', l') ->
            St.result (AddUser f' l' e') (St.after (AddUser f l e) m)
            = St.result (AddUser f' l' e') m) as Hind.
  { intros f l e f' l' e' H. apply AddUser_result_found.
    by rewrite range_users_after_other. }
  split; [by apply Hind |].
  rewrite (AddUser_after _ f2 l2 e2), (AddUser_after _ f1 l1 e1 (St.after _ m)).
  rewrite !Hind by done. rewrite !AddUser_after, <- !app_assoc.
  apply Permutation_app_head, Permutation_app_comm.
Qed.

Lemma AddUsers_cons c cs m :
  AddUsers (c :: cs) m =
  (St.result (AddUser (firstName c) (lastName c) (email c)) m
     :: St.result (AddUsers cs) (St.after (AddUser (firstName c) (lastName c) (email c)) m),
   St.after (AddUsers cs) (St.after (AddUser (firstName c) (lastName c) (email c)) m)).
Proof.
  unfold St.result, St.after. simpl.
  unfold mbind, St.M_bind, mret, St.M_ret.
  destruct (AddUser (firstName c) (lastName c) (email c) m) as [err m1]. simpl.
  by destruct (calls.AddUsers ParseAddress cs m1).
Qed.

Lemma AddUsers_cons_after c cs m :
  St.after (AddUsers (c :: cs)) m
  = St.after (AddUsers cs) (St.after (AddUser (firstName c) (lastName c) (email c)) m).
Proof. unfold St.after at 1. by rewrite AddUsers_cons. Qed.

Lemma AddUsers_cons_result c cs m :
  St.result (AddUsers (c :: cs)) m
  = St.result (AddUser (firstName c) (lastName c) (email c)) m
      :: St.result (AddUsers cs) (St.after (AddUser (firstName c) (lastName c) (email c)) m).
Proof. unfold St.result at 1. by rewrite AddUsers_cons. Qed.

Lemma AddUsers_app_after cs cs' : forall m,
  St.after (AddUsers (cs ++ cs')) m = St.after (AddUsers cs') (St.after (AddUsers cs) m).
Proof.
  induction cs as [|c cs IH]; intros m; [done |].
  rewrite <- app_comm_cons, !AddUsers_cons_after. apply IH.
Qed.

(** X7.  A list of calls returns one result per call, and the registry grows
    by the number of calls that returned no error. *)
Theorem AddUsers_length cs : forall m,
  length (St.result (AddUsers cs) m) = length cs /\
  length (users_ (St.after (AddUsers cs) m))
    = length (users_ m) + successes (St.result (AddUsers cs) m).
Proof.
  induction cs as [|c cs IH]; intros m.
  - unfold successes, St.result, St.after. simpl. split; [done | lia].
  - rewrite AddUsers_cons_after.
    destruct (IH (St.after (AddUser (firstName c) (lastName c) (email c)) m))
      as [IH1 IH2].
    rewrite AddUsers_cons_result. simpl.
    split; [by rewrite IH1 |]. rewrite IH2, AddUser_length.
    unfold successes. rewrite filter_cons.
    destruct (St.result (AddUser (firstName c) (lastName c) (email c)) m) as [e|].
    + rewrite decide_False by done. lia.
    + rewrite decide_True by done. simpl. lia.
Qed.

Lemma present_after_AddUser first last f l e m :
  present first last (St.after (AddUser f l e) m) <->
  present first last m \/ adds first last (mkCall f l e).
Proof.
  unfold present at 1, St.after.
  destruct (AddUser_cases ParseAddress f l e m)
    as [[err He] | (a & Hp & Hf & Hl & Hfresh & Hadd)].
  - rewrite He. simpl. split; [by left |].
    intros [H | (<- & <- & Hf & Hl & [a Ha])]; [done |]. simpl in *.
    rewrite AddUser_named in He by done.
    destruct (range_users f l 0 (users_ m)) as [p|] eqn:Hr.
    + apply present_range_users. by exists p.
    + rewrite Ha in He. discriminate.
  - rewrite Hadd. simpl. split.
    + intros (u & Hin & Hu). apply elem_of_app in Hin as [Hin | Hin];
        [left; by exists u |].
      apply list_elem_of_singleton in Hin as ->. destruct Hu as [<- <-]. simpl.
      right. unfold calls.adds. simpl. rewrite Hp. by split_and!.
    + intros [(u & Hin & Hu) | (<- & <- & _ & _ & _)]; simpl.
      * exists u. split; [apply elem_of_app; by left | done].
      * exists (mkUser f l a). split; [apply elem_of_app; right; left | done].
Qed.

Lemma present_after_AddUsers cs first last : forall m,
  present first last (St.after (AddUsers cs) m) <->
  present first last m \/ exists c, c ∈ cs /\ adds first last c.
Proof.
  induction cs as [|c cs IH]; intros m.
  - unfold St.after. simpl. split; [by left |].
    intros [H | (c & Hc & _)]; [done | inversion Hc].
  - rewrite AddUsers_cons_after, IH, present_after_AddUser.
    destruct c as [f l e]. simpl. split.
    + intros [[H | H] | (c & Hc & H)]; [by left | |].
      * right. exists (mkCall f l e). split; [left | done].
      * right. exists c. split; [by right | done].
    + intros [H | (c & Hc & H)]; [left; by left |].
      apply elem_of_cons in Hc as [-> | Hc]; [left; by right |].
      right. by exists c.
Qed.

Lemma range_users_after_calls cs first last p : forall m,
  range_users first last 0 (users_ m) = Some p ->
  range_users first last 0 (users_ (St.after (AddUsers cs) m)) = Some p /\
  users_ (St.after (AddUsers cs) m) !! p = users_ m !! p.
Proof.
  induction cs as [|c cs IH]; intros m Hp; [done |].
  rewrite AddUsers_cons_after.
  pose proof (range_users_after_found ParseAddress
                (firstName c) (lastName c) (email c) m first last p Hp) as Hp'.
  destruct (IH _ Hp') as [IH1 IH2]. split; [done |]. rewrite IH2.
  apply range_users_Some in Hp as (j & u & -> & Hj & _ & _).
  change (0 + j) with j.
  transitivity (Some u); [by apply AddUser_keeps | done].
Qed.

(** X8.  After a list of calls on a new registry, a lookup finds a pair of
    names exactly when some call of the list named that pair with both
    names non-empty and an address that parses. *)
Theorem GetUserByName_after_calls cs first last :
  (exists p, St.result (GetUserByName first last)
               (St.after (AddUsers cs) NewManager) = (Some p, None)) <->
  exists c, c ∈ cs /\ adds first last c.
Proof.
  rewrite <- present_found, present_after_AddUsers. split; [| by right].
  intros [(u & Hin & _) | H]; [inversion Hin | done].
Qed.

(** X9.  The first call that can add a pair of names decides its record: after
    any further calls, the lookup returns the record with the address of
    that call, whatever addresses later calls give for the pair. *)
Theorem first_call_wins before c rest a :
  (forall c', c' ∈ before -> ~ adds (firstName c) (lastName c) c') ->
  firstName c <> "" -> lastName c <> "" ->
  ParseAddress (email c) = Some a ->
  let m := St.after (AddUsers (before ++ c :: rest)) NewManager in
  exists p,
    St.result (GetUserByName (firstName c) (lastName c)) m = (Some p, None) /\
    deref m p = Some (mkUser (firstName c) (lastName c) a).
Proof.
  intros Hbefore Hf Hl Ha m. subst m.
  rewrite AddUsers_app_after, AddUsers_cons_after.
  set (m1 := St.after (AddUsers before) NewManager).
  assert (~ present (firstName c) (lastName c) m1) as Hfresh.
  { unfold m1. rewrite present_after_AddUsers.
    intros [(u & Hin & _) | (c' & Hc' & Hadds)]; [inversion Hin |].
    by apply (Hbefore c'). }
  assert (users_ (St.after (AddUser (firstName c) (lastName c) (email c)) m1)
          = (users_ m1 ++ [mkUser (firstName c) (lastName c) a])%list) as Hm2.
  { unfold St.after. rewrite AddUser_absent, Ha; [done | done | done |].
    intros u Hin Hu. apply Hfresh. by exists u. }
  set (m2 := St.after (AddUser (firstName c) (lastName c) (email c)) m1) in *.
  assert (range_users (firstName c) (lastName c) 0 (users_ m2)
          = Some (length (users_ m1))) as Hfound.
  { rewrite Hm2. rewrite range_users_app_fresh; [done | | done].
    intros u Hin Hu. apply Hfresh. by exists u. }
  destruct (range_users_after_calls rest _ _ _ m2 Hfound) as [Hp Hd].
  exists (length (users_ m1)). unfold St.result. rewrite GetUserByName_run. simpl.
  rewrite Hp. split; [done |].
  unfold deref. rewrite Hd, Hm2. by rewrite list_lookup_middle.
Qed.

End AddUser.

End registry_calls.

(** ** The earlier revision of [AddUser] *)

Module initial_facts.
Import Go Go_facts users registry lookup_facts users_facts calls registry_growth.

Section AddUser.

Variable ParseAddress : string -> option mail.Address.

Local Abbreviation AddUser0 := (users_initial.AddUser ParseAddress).
Local Abbreviation AddUser := (users.AddUser ParseAddress).

Lemma AddUser0_cases firstName lastName email m :
  (exists e, AddUser0 firstName lastName email m = (Some e, m) /\
     (firstName = "" \/ lastName = "" \/ ParseAddress email = None)) \/
  (exists a, ParseAddress email = Some a /\ firstName <> "" /\ lastName <> "" /\
     AddUser0 firstName lastName email m =
       (None, mkManager (users_ m ++ [mkUser firstName lastName a]))).
Proof.
  unfold users_initial.AddUser.
  destruct (eqs firstName "") eqn:Hf.
  { apply eqs_true in Hf. left. eexists. split; [done | by left]. }
  destruct (eqs lastName "") eqn:Hl.
  { apply eqs_true in Hl. left. eexists. split; [done | right; by left]. }
  apply eqs_false in Hf, Hl.
  destruct (ParseAddress email) as [a|] eqn:Ha.
  - right. by exists a.
  - left. eexists. split; [done | by repeat right].
Qed.

(** X10.  The earlier [AddUser] never looks at the registry: it returns no error
    exactly when both names are non-empty and the address parses; an error
    leaves the registry as it was; non-empty names are kept; but a call
    that succeeded succeeds again, and the registry then holds the pair
    twice. *)
Theorem initial_AddUser_no_lookup firstName lastName email m :
  (St.result (AddUser0 firstName lastName email) m = None <->
   firstName <> "" /\ lastName <> "" /\ is_Some (ParseAddress email)) /\
  (is_Some (St.result (AddUser0 firstName lastName email) m) ->
   St.after (AddUser0 firstName lastName email) m = m) /\
  (names_nonempty m ->
   names_nonempty (St.after (AddUser0 firstName lastName email) m)) /\
  (St.result (AddUser0 firstName lastName email) m = None ->
   let m1 := St.after (AddUser0 firstName lastName email) m in
   St.result (AddUser0 firstName lastName email) m1 = None /\
   ~ unique_names (St.after (AddUser0 firstName lastName email) m1)).
Proof.
  unfold St.result, St.after.
  destruct (AddUser0_cases firstName lastName email m)
    as [(e & He & Hwhy) | (a & Ha & Hf & Hl & Hadd)].
  - rewrite He. simpl. split_and!; try done.
    split; [discriminate |]. intros (Hf & Hl & [a Ha]).
    destruct Hwhy as [? | [? | ?]]; congruence.
  - rewrite Hadd. simpl. split_and!.
    + split; [intros _; by rewrite Ha | done].
    + intros [x Hx]. discriminate.
    + intros Hne u Hu. simpl in Hu.
      apply elem_of_app in Hu as [Hu | Hu]; [by apply Hne |].
      apply list_elem_of_singleton in Hu as ->. by simpl.
    + intros _.
      destruct (AddUser0_cases firstName lastName email
                  (mkManager (users_ m ++ [mkUser firstName lastName a])))
        as [(e & He & Hwhy) | (a' & Ha' & _ & _ & Hadd')].
      { destruct Hwhy as [? | [? | ?]]; congruence. }
      rewrite Hadd'. simpl. split; [done |].
      assert (a' = a) as -> by congruence.
      intros Huniq. simpl in Huniq.
      set (u := mkUser firstName lastName a) in *.
      assert (((users_ m ++ [u]) ++ [u])%list !! length (users_ m) = Some u) as Hi.
      { rewrite lookup_app_l; [by rewrite list_lookup_middle |].
        rewrite length_app. simpl. lia. }
      assert (((users_ m ++ [u]) ++ [u])%list !! S (length (users_ m)) = Some u) as Hj.
      { apply list_lookup_middle. rewrite length_app. simpl. lia. }
      specialize (Huniq _ _ _ _ Hi Hj eq_refl eq_refl). lia.
Qed.

(** X11.  The two revisions of [AddUser] do the same on every call whose pair of
    names is not in the registry, except that the last-name message of the
    earlier one has no space after the colon. *)
Theorem AddUser_revisions_agree firstName lastName email m :
  ~ present firstName lastName m ->
  St.after (AddUser firstName lastName email) m
    = St.after (AddUser0 firstName lastName email) m /\
  (firstName = "" \/ lastName <> "" ->
   St.result (AddUser firstName lastName email) m
     = St.result (AddUser0 firstName lastName email) m) /\
  (firstName <> "" -> lastName = "" ->
   St.result (AddUser firstName lastName email) m
     = Some (errorString ("invalid last name: " +:+ DQ +:+ DQ)) /\
   St.result (AddUser0 firstName lastName email) m
     = Some (errorString ("invalid last name:" +:+ DQ +:+ DQ))).
Proof.
  intros Hfresh. unfold St.result, St.after.
  destruct (decide (firstName = "")) as [-> | Hf].
  { rewrite AddUser_no_first. split_and!; try done.  }
  destruct (decide (lastName = "")) as [-> | Hl].
  { rewrite AddUser_no_last by done. unfold users_initial.AddUser.
    apply eqs_false in Hf. rewrite Hf. simpl. split_and!; try done.
    intros [? | ?]; [by apply eqs_false in Hf | done]. }
  rewrite AddUser_absent; [| done | done |].
  - unfold users_initial.AddUser. apply eqs_false in Hf, Hl. rewrite Hf, Hl.
    destruct (ParseAddress email); simpl; split_and!; try done;
      intros _ ?; by apply eqs_false in Hl.
  - intros u Hin Hu. apply Hfresh. by exists u.
Qed.

End AddUser.

End initial_facts.

(** ** All the handlers *)

Module handlers_facts.
Import Go Go_facts server http handlers responses server_facts.

Lemma append_cons c (s t : string) : String c s +:+ t = String c (s +:+ t).
Proof. reflexivity. Qed.

Lemma append_assoc (s t u : string) : (s +:+ t) +:+ u = s +:+ (t +:+ u).
Proof. induction s as [|c s IH]; [done |]. by rewrite !append_cons, IH. Qed.

Lemma length_append (s t : string) :
  String.length (s +:+ t) = String.length s + String.length t.
Proof.
  induction s as [|c s IH]; [done |].
  rewrite append_cons. simpl. by rewrite IH.
Qed.

(** Two strings with a common end are equal when what comes before the
    end is. *)
Lemma append_inj_l (s s' t : string) : s +:+ t = s' +:+ t -> s = s'.
Proof.
  revert s'. induction s as [|c s IH]; intros [|c' s'] H.
  - done.
  - exfalso. apply (f_equal String.length) in H.
    rewrite !length_append in H. simpl in H. lia.
  - exfalso. apply (f_equal String.length) in H.
    rewrite !length_append in H. simpl in H. lia.
  - rewrite !append_cons in H. injection H as -> H. f_equal. by apply IH.
Qed.

Lemma handleHello_greeting username :
  handleHello NewRecorder username = response StatusOK (greeting username).
Proof. reflexivity. Qed.

Lemma answered_greeting username : answered (response StatusOK (greeting username)).
Proof.
  split_and!; [done | by left |].
  exists ("Hello " +:+ username +:+ "!"). unfold greeting. simpl.
  by rewrite <- !append_assoc.
Qed.

Lemma answered_error error :
  answered (http_Error NewRecorder error StatusBadRequest).
Proof. split_and!; [done | by right | by exists error]. Qed.

Lemma answered_line line : answered (Write (line +:+ LF) NewRecorder).
Proof. split_and!; [done | by left | by exists line]. Qed.

(** X12.  The greeting tells the name: different names get different
    responses from [handleHello]. *)
Theorem handleHello_injective username username' :
  username <> username' ->
  handleHello NewRecorder username <> handleHello NewRecorder username'.
Proof.
  intros Hne Heq. apply Hne. rewrite !handleHello_greeting in Heq.
  injection Heq as Heq.
  change (username +:+ ("!" +:+ LF) = username' +:+ ("!" +:+ LF)) in Heq.
  by apply append_inj_l in Heq.
Qed.

(** X13.  The earlier [handleHelloParameterized], which wrote the greeting
    itself, and the later one, which calls [handleHello], answer every
    request in the same way, on every response writer. *)
Theorem handleHelloParameterized_refactored w r :
  server_initial.handleHelloParameterized w r = handleHelloParameterized w r.
Proof.
  unfold server_initial.handleHelloParameterized, handleHelloParameterized, handleHello.
  destruct (0 <? length (index (URL_Query r) "user"))%nat; reflexivity.
Qed.

Section Library.

Variable json_Unmarshal : string -> UserData -> option error * UserData.
Variable CanonicalMIMEHeaderKey : string -> string.

Local Abbreviation handleJSON := (server.handleJSON json_Unmarshal).
Local Abbreviation handleHelloHeader := (handlers.handleHelloHeader CanonicalMIMEHeaderKey).
Local Abbreviation handleHelloNoHeader := (handlers.handleHelloNoHeader CanonicalMIMEHeaderKey).
Local Abbreviation Header_Get := (handlers.Header_Get CanonicalMIMEHeaderKey).

Lemma Header_Get_first h key :
  Header_Get h key =
  match index h (CanonicalMIMEHeaderKey key) with
  | [] => ""
  | v :: _ => v
  end.
Proof.
  unfold handlers.Header_Get.
  by destruct (index h (CanonicalMIMEHeaderKey key)).
Qed.

Lemma handleHelloHeader_run r :
  handleHelloHeader NewRecorder r =
  if eqs (Header_Get (Header r) "user") ""
  then response StatusBadRequest ("invalid username provided" +:+ LF)
  else response StatusOK (greeting (Header_Get (Header r) "user")).
Proof. unfold handlers.handleHelloHeader. by destruct (eqs _ ""). Qed.

Lemma handleJSON_run r :
  handleJSON NewRecorder r =
  match Body_ReadAll r with
  | (_, Some _) => response StatusBadRequest ("bad request body" +:+ LF)
  | (data, None) =>
      if bool_decide (String.length data = 0)
      then response StatusBadRequest ("empty request body" +:+ LF)
      else match json_Unmarshal data (mkUserData "") with
           | (Some _, _) => response StatusBadRequest ("error parsing request body" +:+ LF)
           | (None, d) =>
               if eqs (Name d) ""
               then response StatusBadRequest ("invalid request body!" +:+ LF)
               else response StatusOK (greeting (Name d))
           end
  end.
Proof.
  unfold server.handleJSON. destruct (Body_ReadAll r) as [data [e|]]; [done |].
  simpl. destruct (bool_decide (String.length data = 0)); [done |].
  destruct (json_Unmarshal data (mkUserData "")) as [[e|] d]; [done |].
  simpl. by destruct (eqs (Name d) "").
Qed.

(** X14.  [handleJSON] answers 200 exactly when the body is read without error,
    is not empty, decodes without error and has a non-empty [Name]; the
    body of the answer is then the greeting of that name.  In every other
    case it answers 400. *)
Theorem handleJSON_ok_iff r :
  let w := handleJSON NewRecorder r in
  (Code w = 200 <->
   exists data d,
     Body_ReadAll r = (data, None) /\ data <> "" /\
     json_Unmarshal data (mkUserData "") = (None, d) /\ Name d <> "" /\
     Body w = greeting (Name d)) /\
  (Code w <> 200 -> Code w = 400).
Proof.
  intros w. subst w. rewrite handleJSON_run.
  destruct (Body_ReadAll r) as [data [e|]] eqn:Hread; simpl.
  { split; [| done]. split; [discriminate |].
    intros (? & ? & [=] & _). }
  destruct (bool_decide (String.length data = 0)) eqn:Hlen; simpl.
  { apply bool_decide_eq_true in Hlen. split; [| done]. split; [discriminate |].
    intros (data' & d & [= <-] & Hd & _). by destruct data. }
  apply bool_decide_eq_false in Hlen.
  destruct (json_Unmarshal data (mkUserData "")) as [[e|] d] eqn:Hdec; simpl.
  { split; [| done]. split; [discriminate |].
    intros (data' & d' & [= <-] & _ & Hd' & _). congruence. }
  destruct (eqs (Name d) "") eqn:Hname; simpl.
  { apply eqs_true in Hname. split; [| done]. split; [discriminate |].
    intros (data' & d' & [= <-] & _ & Hd' & Hn & _). congruence. }
  apply eqs_false in Hname. split; [| done]. split; [| done].
  intros _. exists data, d. split_and!; try done. by intros ->.
Qed.

(** X15.  [handleHelloHeader] answers 400 "invalid username provided" when the
    request has no [user] header or the first value of the header is
    empty, and greets the first value otherwise; [handleHelloNoHeader]
    answers every request as [handleHelloHeader] does. *)
Theorem handleHelloHeader_first_value r :
  (index (Header r) (CanonicalMIMEHeaderKey "user") = [] ->
   handleHelloHeader NewRecorder r
   = response 400 ("invalid username provided" +:+ LF)) /\
  (forall rest,
     index (Header r) (CanonicalMIMEHeaderKey "user") = "" :: rest ->
     handleHelloHeader NewRecorder r
     = response 400 ("invalid username provided" +:+ LF)) /\
  (forall v rest,
     index (Header r) (CanonicalMIMEHeaderKey "user") = v :: rest -> v <> "" ->
     handleHelloHeader NewRecorder r = response 200 (greeting v)) /\
  (forall w, handleHelloNoHeader w r = handleHelloHeader w r).
Proof.
  rewrite handleHelloHeader_run, Header_Get_first. split_and!.
  - by intros ->.
  - by intros rest ->.
  - intros v rest -> Hv. apply eqs_false in Hv. by rewrite Hv.
  - done.
Qed.

(** X16.  The four routes that greet a name: each answers a non-empty name with
    200 and the same greeting; the query route and the path route also
    greet the empty name, the header route and the JSON route answer it
    with 400. *)
Theorem greeting_routes username :
  (forall path before rest body,
     (forall kv, kv ∈ before -> kv.1 <> "user") ->
     handleHelloParameterized NewRecorder
       (mkRequest path (before ++ ("user", username) :: rest) body)
     = response 200 (greeting username)) /\
  (forall r,
     pathValues r !! "user" = Some username ->
     handleUserResponsesHello NewRecorder r = response 200 (greeting username)) /\
  (forall r rest,
     index (Header r) (CanonicalMIMEHeaderKey "user") = username :: rest ->
     handleHelloHeader NewRecorder r =
     if decide (username = "")
     then response 400 ("invalid username provided" +:+ LF)
     else response 200 (greeting username)) /\
  (forall path query data,
     data <> "" ->
     json_Unmarshal data (mkUserData "") = (None, mkUserData username) ->
     handleJSON NewRecorder (request path query data) =
     if decide (username = "")
     then response 400 ("invalid request body!" +:+ LF)
     else response 200 (greeting username)).
Proof.
  split_and!.
  - intros path before rest body Hb.
    rewrite handleHelloParameterized_run. simpl. by rewrite values_of_first.
  - intros r Hr. unfold handleUserResponsesHello, PathValue. rewrite Hr. simpl.
    apply handleHello_greeting.
  - intros r rest Hr. rewrite handleHelloHeader_run, Header_Get_first, Hr.
    destruct (decide (username = "")) as [-> | Hn]; [done |].
    apply eqs_false in Hn. by rewrite Hn.
  - intros path query data Hd Hdec. rewrite handleJSON_run. simpl.
    assert (bool_decide (String.length data = 0) = false) as ->.
    { apply bool_decide_eq_false. by destruct data. }
    rewrite Hdec. simpl.
    destruct (decide (username = "")) as [-> | Hn]; [done |].
    apply eqs_false in Hn. by rewrite Hn.
Qed.

(** X17.  Every handler answers every request, on a new response writer, with
    status 200 or 400 and a body that ends with a newline. *)
Theorem handlers_answer r routed :
  answered (handleRoot NewRecorder r) /\
  answered (handleGoodbye NewRecorder r) /\
  answered (server_initial.handleHealth NewRecorder r) /\
  answered (handleHelloParameterized NewRecorder r) /\
  answered (handleUserResponsesHello NewRecorder routed) /\
  answered (handleHelloHeader NewRecorder routed) /\
  answered (handleHelloNoHeader NewRecorder routed) /\
  answered (handleJSON NewRecorder r).
Proof.
  split_and!.
  - apply answered_line.
  - apply answered_line.
  - apply answered_line.
  - rewrite handleHelloParameterized_run. apply answered_greeting.
  - unfold handleUserResponsesHello. rewrite handleHello_greeting.
    apply answered_greeting.
  - rewrite handleHelloHeader_run.
    destruct (eqs _ ""); [apply answered_error | apply answered_greeting].
  - change (answered (handleHelloHeader NewRecorder routed)).
    rewrite handleHelloHeader_run.
    destruct (eqs _ ""); [apply answered_error | apply answered_greeting].
  - rewrite handleJSON_run.
    destruct (Body_ReadAll r) as [data [e|]]; [apply answered_error |].
    destruct (bool_decide _); [apply answered_error |].
    destruct (json_Unmarshal data (mkUserData "")) as [[e|] d];
      [apply answered_error |].
    destruct (eqs (Name d) ""); [apply answered_error | apply answered_greeting].
Qed.

End Library.

End handlers_facts.

(** ** The further properties on the calls of the tests *)

Module more_instances.
Import Go users registry server http handlers responses calls scenarios more_scenarios.
Import registry_growth registry_calls initial_facts handlers_facts.

(** [TestHandleRoot], [TestHandleGoodbye], [TestHandleHealth],
    [TestHandleUserResponsesHello], [TestHandleHelloHeader],
    [TestHandleHelloNoHeader] *)
Example TestHandleRoot :
  handleRoot NewRecorder (request "/health" [] "")
  = response 200 ("Welcome to our HomePage!" +:+ LF).
Proof. reflexivity. Qed.

Example TestHandleGoodbye :
  handleGoodbye NewRecorder (request "/goodbye" [] "")
  = response 200 ("Goodbye world is served at goodbye" +:+ LF).
Proof. reflexivity. Qed.

Example TestHandleHealth :
  server_initial.handleHealth NewRecorder (request "/health" [] "")
  = response 200 ("Hello world is served at health" +:+ LF).
Proof. reflexivity. Qed.

Example TestHandleUserResponsesHello :
  handleUserResponsesHello NewRecorder with_path_value
  = response 200 ("Hello TestMan!" +:+ LF).
Proof. reflexivity. Qed.

Example TestHandleHelloHeader :
  handleHelloHeader sample_Canonical NewRecorder with_header
  = response 200 ("Hello TestMan!" +:+ LF).
Proof. reflexivity. Qed.

Example TestHandleHelloNoHeader :
  handleHelloNoHeader sample_Canonical NewRecorder without_header
  = response 400 ("invalid username provided" +:+ LF).
Proof. reflexivity. Qed.

Lemma GetUserByName_stable_witness :
  let m' := St.after (AddUser parse "zed" "foo" "zed@bar.com") four_users in
  St.result (GetUserByName "bari" "foo") m' = (Some 1, None) /\
  is_Some (deref four_users 1) /\ deref m' 1 = deref four_users 1.
Proof.
  apply (GetUserByName_stable parse "zed" "foo" "zed@bar.com" four_users "bari" "foo" 1).
  reflexivity.
Defined.

Lemma GetUserByName_other_pair_witness :
  St.result (GetUserByName "zed" "bar")
    (St.after (AddUser parse "zed" "foo" "zed@bar.com") four_users)
  = St.result (GetUserByName "zed" "bar") four_users.
Proof.
  apply (GetUserByName_other_pair parse "zed" "foo" "zed@bar.com" four_users "zed" "bar").
  intros [=].
Defined.

(** Two pairs of names with the same address. *)
Lemma AddUser_independent_witness :
  St.result (AddUser parse "bari" "foo" "foo@bar.com")
    (St.after (AddUser parse "jhon" "smith" "foo@bar.com") NewManager)
  = St.result (AddUser parse "bari" "foo" "foo@bar.com") NewManager /\
  users_ (St.after (AddUser parse "bari" "foo" "foo@bar.com")
            (St.after (AddUser parse "jhon" "smith" "foo@bar.com") NewManager))
  ≡ₚ users_ (St.after (AddUser parse "jhon" "smith" "foo@bar.com")
               (St.after (AddUser parse "bari" "foo" "foo@bar.com") NewManager)).
Proof.
  apply (AddUser_independent parse "jhon" "smith" "foo@bar.com"
           "bari" "foo" "foo@bar.com" NewManager).
  intros [=].
Defined.

Lemma first_call_wins_witness :
  let m := St.after (AddUsers parse ([nameless] ++ jhon :: [jhon_again])) NewManager in
  exists p,
    St.result (GetUserByName "jhon" "smith") m = (Some p, None) /\
    deref m p = Some (mkUser "jhon" "smith" (addr "foo@bar.com")).
Proof.
  apply (first_call_wins parse [nameless] jhon [jhon_again] (addr "foo@bar.com"));
    [| discriminate | discriminate | reflexivity].
  intros c' Hc' (Hf & _). apply list_elem_of_singleton in Hc'. subst c'.
  discriminate.
Defined.

Lemma AddUser_revisions_agree_witness :
  St.after (AddUser parse "jhon" "smith" "foo@bar.com") NewManager
  = St.after (users_initial.AddUser parse "jhon" "smith" "foo@bar.com") NewManager.
Proof.
  apply (AddUser_revisions_agree parse "jhon" "smith" "foo@bar.com" NewManager).
  intros (u & Hin & _). inversion Hin.
Defined.

Lemma handleHello_injective_witness :
  handleHello NewRecorder "Testing" <> handleHello NewRecorder "TestMan".
Proof.
  apply (handleHello_injective "Testing" "TestMan"). discriminate.
Defined.

(** The header route on the three requests. *)
Lemma handleHelloHeader_first_value_witness :
  handleHelloHeader sample_Canonical NewRecorder without_header
  = response 400 ("invalid username provided" +:+ LF) /\
  handleHelloHeader sample_Canonical NewRecorder with_empty_header
  = response 400 ("invalid username provided" +:+ LF) /\
  handleHelloHeader sample_Canonical NewRecorder with_header
  = response 200 (greeting "TestMan").
Proof.
  split; [| split].
  - apply (proj1 (handleHelloHeader_first_value sample_Canonical without_header)).
    reflexivity.
  - apply (proj1 (proj2 (handleHelloHeader_first_value sample_Canonical with_empty_header))
             []).
    reflexivity.
  - apply (proj1 (proj2 (proj2
             (handleHelloHeader_first_value sample_Canonical with_header)))
             "TestMan" []); [reflexivity | discriminate].
Defined.

(** The name of the tests on the four routes. *)
Lemma greeting_routes_witness :
  handleHelloParameterized NewRecorder (request "/hello" (pieces "user=TestMan") "")
  = response 200 (greeting "TestMan") /\
  handleUserResponsesHello NewRecorder with_path_value
  = response 200 (greeting "TestMan") /\
  handleHelloHeader sample_Canonical NewRecorder with_header
  = response 200 (greeting "TestMan") /\
  handleJSON sample_Unmarshal NewRecorder (request "/json" [] (marshalled "TestMan"))
  = response 200 (greeting "TestMan").
Proof.
  destruct (greeting_routes sample_Unmarshal sample_Canonical "TestMan")
    as (Hquery & Hpath & Hheader & Hjson).
  split; [| split; [| split]].
  - apply (Hquery "/hello" [] [] ("", None)). intros kv Hkv. inversion Hkv.
  - apply Hpath. reflexivity.
  - apply (Hheader with_header []). reflexivity.
  - apply (Hjson "/json" [] (marshalled "TestMan")); [discriminate | reflexivity].
Defined.

(** The earlier [AddUser] on the call of [TestAddUser], twice. *)
Lemma initial_AddUser_no_lookup_witness :
  let m1 := St.after (users_initial.AddUser parse "jhon" "smith" "foo@bar.com") NewManager in
  St.result (users_initial.AddUser parse "jhon" "smith" "foo@bar.com") m1 = None /\
  ~ unique_names (St.after (users_initial.AddUser parse "jhon" "smith" "foo@bar.com") m1).
Proof.
  apply (proj2 (proj2 (proj2
           (initial_AddUser_no_lookup parse "jhon" "smith" "foo@bar.com" NewManager)))).
  reflexivity.
Defined.

(** C5 fails for the email field.  [TestAddUserDuplicateName] passes the
    string [<foo@bar.com>]: the call succeeds, the lookup returns the record
    with the two names as given, and the [Email] of the record is the
    parsed address, whose text [foo@bar.com] is not the string passed in. *)
Lemma AddUser_email_counterexample :
  let m' := St.after (AddUser parse "jhon" "smith" "<foo@bar.com>") NewManager in
  St.result (AddUser parse "jhon" "smith" "<foo@bar.com>") NewManager = None /\
  exists p u,
    St.result (GetUserByName "jhon" "smith") m' = (Some p, None) /\
    deref m' p = Some u /\
    FirstName u = "jhon" /\ LastName u = "smith" /\
    Email u = mail.mkAddress "" "foo@bar.com" /\
    mail.Address_ (Email u) <> "<foo@bar.com>".
Proof.
  split; [reflexivity |].
  exists 0, (mkUser "jhon" "smith" (addr "foo@bar.com")).
  split_and!; try reflexivity. discriminate.
Qed.

End more_instances.
